(** * connect-traversal: a shallow embedding of [lib/traversal.js]

    The router walks a tree of registered resource types along the segments
    of a request path and dispatches to the handler sequence registered for
    the leaf it reaches.

    Conventions of the embedding:
    - JS objects used as dictionaries ([resources], [paths], [children]) are
      plain objects: a finite map holds their own properties, and a lookup
      that finds no own property goes on to the members every plain object
      inherits from [Object.prototype] ([js_get]);
    - the built-in objects themselves are not modelled: where the code goes
      on with a member of [Object.prototype] (constructs [Object], returns a
      built-in function, reads or writes its properties), the outcome is
      [Outside] and names the member;
    - what depends on the JavaScript runtime ([String.prototype.toLowerCase],
      the string a built-in converts to) is a parameter, the class [Runtime];
    - a JS value that the code only tests for truthiness or uses as a
      property key is a [jsval]: [undefined], [null] or a string;
    - a [throw] is the [Throw] outcome of a [result];
    - the user hooks ([init], [childValidate]) are parameters of the model:
      [init] runs in a state-and-exception monad over an abstract world [W],
      [childValidate] is a pure predicate on the segment;
    - handlers are opaque values of an abstract type [Handler]; what the
      dispatcher does with them is recorded as an [Effect]. *)

From stdpp Require Import gmap strings list fin_maps.
From Stdlib Require Import ZArith Ascii String Lia.

Local Open Scope string_scope.
Local Open Scope Z_scope.

(** ** JavaScript values *)

Inductive jsval : Type :=
  | JUndefined
  | JNull
  | JStr (s : string).

(** [!!v] *)
Definition truthy_str (s : string) : bool := negb (String.eqb s "").

Definition truthy (v : jsval) : bool :=
  match v with
  | JStr s => truthy_str s
  | _ => false
  end.

(** [v || d] where the result is used as a string *)
Definition js_or (v : jsval) (d : string) : string :=
  match v with
  | JStr s => if truthy_str s then s else d
  | _ => d
  end.

(** [obj[v]] converts [v] to a property key. *)
Definition prop_key (v : jsval) : string :=
  match v with
  | JUndefined => "undefined"
  | JNull => "null"
  | JStr s => s
  end.

(** What the embedding takes from the JavaScript runtime. *)
Class Runtime : Type := {
  (** [String.prototype.toLowerCase] *)
  toLowerCase : string -> string;
  (** [String(m)] for the member of [Object.prototype] named [m]: the
      property key the member converts to when it is used as one. *)
  member_key : string -> string
}.

(** The members every plain object inherits from [Object.prototype]. *)
Definition object_prototype_members : list string :=
  [ "constructor"; "hasOwnProperty"; "isPrototypeOf"; "propertyIsEnumerable";
    "toLocaleString"; "toString"; "valueOf"; "__proto__";
    "__defineGetter__"; "__defineSetter__";
    "__lookupGetter__"; "__lookupSetter__" ].

Definition inherited (k : string) : bool :=
  existsb (String.eqb k) object_prototype_members.

(** What [obj[k]] finds on a plain object whose own properties are [o]. *)
Inductive slot (V : Type) : Type :=
  | Own (v : V)
  | Inherited (member : string)
  | Absent.
Arguments Own {V} v.
Arguments Inherited {V} member.
Arguments Absent {V}.

Definition js_get {V : Type} (o : gmap string V) (k : string) : slot V :=
  match o !! k with
  | Some v => Own v
  | None => if inherited k then Inherited k else Absent
  end.

(** [String.prototype.split] with a one-character separator. *)
Fixpoint split (sep : ascii) (s : string) : list string :=
  match s with
  | EmptyString => [EmptyString]
  | String c s' =>
      if Ascii.eqb c sep then EmptyString :: split sep s'
      else match split sep s' with
           | [] => [String c EmptyString]
           | x :: xs => String c x :: xs
           end
  end.

(** [Array.prototype.join] *)
Fixpoint join (sep : string) (l : list string) : string :=
  match l with
  | [] => EmptyString
  | [x] => x
  | x :: xs => String.append x (String.append sep (join sep xs))
  end.

(** ** Outcomes *)

Inductive error : Type :=
  | UnregisteredResource (id : string)  (* 'there is no registered resource: ' + id *)
  | RootNotSet                          (* "root resource hasn't been set yet." *)
  | MissingHandlers                     (* 'registerPath() requires callback functions' *)
  | InvalidHandlerType                  (* "... callback functions of 'function' type" *)
  | TypeError                           (* raised by the JS runtime itself *)
  | HookError (msg : string).           (* raised by a user hook *)

(** The outcome of a call: it returns, it throws, or it goes on with the
    named member of [Object.prototype], where the embedding does not follow
    it. *)
Inductive result (A : Type) : Type :=
  | Ok (a : A)
  | Throw (e : error)
  | Outside (member : string).
Arguments Ok {A} a.
Arguments Throw {A} e.
Arguments Outside {A} member.

Definition rbind {A B} (r : result A) (f : A -> result B) : result B :=
  match r with
  | Ok a => f a
  | Throw e => Throw e
  | Outside m => Outside m
  end.

Section Model.

Context {W Opt Handler Res : Type} {runtime : Runtime}.

(** ** The monad of code that may call user hooks *)

Definition M (A : Type) : Type := W -> result A * W.

Definition ret {A} (a : A) : M A := fun w => (Ok a, w).
Definition throw {A} (e : error) : M A := fun w => (Throw e, w).
Definition outside {A} (member : string) : M A := fun w => (Outside member, w).
Definition bind {A B} (m : M A) (f : A -> M B) : M B :=
  fun w => match m w with
           | (Ok a, w') => f a w'
           | (Throw e, w') => (Throw e, w')
           | (Outside m, w') => (Outside m, w')
           end.
Definition lift {A} (r : result A) : M A := fun w => (r, w).

Notation "'let*' x ':=' c1 'in' c2" := (bind c1 (fun x => c2))
  (at level 10, x name, c1 at level 100, c2 at level 200, only parsing).

(** ** Data model *)

(** What [Resource.prototype.get] reads off the prototype of an instance. *)
Record Class : Type := mkClass {
  children : option (gmap string string);
  child : jsval;
  childValidate : string -> bool
}.

(** [function Resource(key, parent, options)], plus the [resource] field the
    registered constructor sets and the prototype the instance was built
    with. *)
#[warnings="-register-all"]
Inductive Instance : Type := mkInstance {
  resource : string;
  proto : Class;
  key : jsval;
  parent : option Instance;
  options : option Opt
}.

(** The constructor [obj] that [registerResource] builds. [f_init] is the
    [init] hook of the type: it is given the constructed instance as [this]
    and yields the instance as the hook leaves it. *)
Record Factory : Type := mkFactory {
  f_id : string;
  f_proto : Class;
  f_init : Instance -> M Instance
}.

(** The [proto] argument of [registerResource]; an absent field is [None]
    ([JUndefined] for [child]) and is inherited from [Resource.prototype]. *)
Record Proto : Type := mkProto {
  p_children : option (gmap string string);
  p_child : jsval;
  p_childValidate : option (string -> bool);
  p_init : option (Instance -> M Instance)
}.

Inductive callback : Type :=
  | Fn (h : Handler)
  | NotFn (v : jsval).

Definition is_function (c : callback) : bool :=
  match c with
  | Fn _ => true
  | NotFn _ => false
  end.

Record Traversal : Type := mkTraversal {
  resources : gmap string Factory;
  paths : gmap string (gmap string (gmap string (gmap string (list callback))));
  root : option Factory
}.

Record Ops : Type := mkOps {
  ops_name : jsval;
  ops_parent : jsval;
  ops_method : jsval
}.

Record Req : Type := mkReq {
  url : string;
  method : jsval;
  pathname : jsval;
  subpath : option (list string);
  req_resource : option Instance;
  req_buildResourceUrl : bool
}.

(** ** Resource *)

(** [Resource.prototype.childValidate] *)
Definition default_childValidate (k : string) : bool := truthy_str k.

(** [Resource.prototype.init] *)
Definition default_init (inst : Instance) : M Instance := ret inst.

(** [new factory(key, parent, options)]: the registered constructor sets
    [resource], applies [Resource], calls [init] and returns the instance. *)
Definition new_ (fac : Factory) (k : jsval) (p : option Instance)
    (o : option Opt) : M Instance :=
  f_init fac (mkInstance (f_id fac) (f_proto fac) k p o).

(** [Traversal.prototype.checkResource] *)
Definition checkResource (t : Traversal) (id : string) : result unit :=
  match js_get (resources t) id with
  | Absent => Throw (UnregisteredResource id)
  | _ => Ok tt
  end.

(** [this.children && this.children[key]], as the value is used afterwards:
    as a property key and in the error message, where an inherited member
    stands as the string it converts to. *)
Definition static_child (c : Class) (k : string) : option string :=
  match children c with
  | Some m =>
      match js_get m k with
      | Own id => if truthy_str id then Some id else None
      | Inherited member => Some (member_key member)
      | Absent => None
      end
  | None => None
  end.

(** [this.child && this.childValidate(key)] *)
Definition dynamic_child (c : Class) (k : string) : option string :=
  match child c with
  | JStr id => if truthy_str id && childValidate c k then Some id else None
  | _ => None
  end.

(** [factory ? new factory(key, parent, options) : null] where [factory]
    was read from [resources]. Of the inherited members only [constructor],
    that is [Object], can be constructed: [new Object(...)] returns an
    object that is no resource instance; the others raise. *)
Definition new_or_null (factory : slot Factory) (k : jsval)
    (p : option Instance) (o : option Opt) : M (option Instance) :=
  match factory with
  | Own fac => let* inst := new_ fac k p o in ret (Some inst)
  | Inherited member =>
      if String.eqb member "constructor" then outside member
      else throw TypeError
  | Absent => ret None
  end.

(** [Resource.prototype.get] *)
Definition get (t : Traversal) (this : Instance) (k : string)
    : M (option Instance) :=
  let* factory :=
    match static_child (proto this) k with
    | Some id =>
        lift (rbind (checkResource t id)
                (fun _ => Ok (js_get (resources t) id)))
    | None =>
        match dynamic_child (proto this) k with
        | Some id =>
            lift (rbind (checkResource t id)
                    (fun _ => Ok (js_get (resources t) id)))
        | None => ret Absent
        end
    end in
  new_or_null factory (JStr k) (Some this) None.

(** [_traverseTo] inside [Resource.prototype.traverseTo], on a defined
    argument. *)
Fixpoint _traverseTo_obj (resourceId : string) (r : Instance)
    : option Instance :=
  if String.eqb (resource r) resourceId then Some r
  else match parent r with
       | Some p => _traverseTo_obj resourceId p
       | None => None
       end.

(** [_traverseTo]: reading [resource.resource] of an undefined argument
    raises. *)
Definition _traverseTo (resourceId : string) (r : option Instance)
    : result (option Instance) :=
  match r with
  | None => Throw TypeError
  | Some r => Ok (_traverseTo_obj resourceId r)
  end.

(** [Resource.prototype.traverseTo] *)
Definition traverseTo (this : Instance) (resourceId : string)
    : result (option Instance) :=
  _traverseTo resourceId (parent this).

(** ** Traversal *)

(** [function Traversal()]: [root] is not assigned yet. *)
Definition new_Traversal : Traversal := mkTraversal ∅ ∅ None.

(** [Traversal.prototype.registerResource]: the fields of [proto] shadow
    those of [Resource.prototype]. The assignment [this.resources[id] = obj]
    creates an own property, except for the key [__proto__], which replaces
    the prototype of [resources] instead. *)
Definition registerResource (t : Traversal) (id : string) (p : Proto)
    : result Traversal :=
  let obj :=
    mkFactory id
      (mkClass (p_children p) (p_child p)
         (default default_childValidate (p_childValidate p)))
      (default default_init (p_init p)) in
  if String.eqb id "__proto__" then Outside id
  else Ok (mkTraversal (<[id := obj]> (resources t)) (paths t) (root t)).

(** [Traversal.prototype.initResource] *)
Definition initResource (t : Traversal) (id : string) (k : jsval)
    (p : option Instance) (o : option Opt) : M (option Instance) :=
  new_or_null (js_get (resources t) id) k p o.

(** [Traversal.prototype.setRootResource]; [root] can hold a registered
    constructor only. *)
Definition setRootResource (t : Traversal) (id : string) : result Traversal :=
  rbind (checkResource t id) (fun _ =>
  match js_get (resources t) id with
  | Own fac => Ok (mkTraversal (resources t) (paths t) (Some fac))
  | Inherited member => Outside member
  | Absent => Throw (UnregisteredResource id)
  end).

(** The member of [Object.prototype] that lines 139-151 go on with, if any:
    a level that is neither an own property nor absent is an inherited
    member, which is truthy, so that no own entry is created and the later
    reads and assignments work on the built-in; and the last assignment,
    under the key [__proto__], replaces a prototype. *)
Definition reached_member (t : Traversal)
    (resourceId name parent method : string) : option string :=
  match js_get (paths t) resourceId with
  | Inherited member => Some member
  | level1 =>
      let names := match level1 with Own names => names | _ => ∅ end in
      match js_get names name with
      | Inherited member => Some member
      | level2 =>
          let parents := match level2 with Own parents => parents | _ => ∅ end in
          match js_get parents parent with
          | Inherited member => Some member
          | _ => if String.eqb method "__proto__" then Some method else None
          end
      end
  end.

(** [this.paths[resourceId][name][parent][method] = callbacks] where every
    level is an own property or is created on the way. *)
Definition store_own (t : Traversal) (resourceId name parent method : string)
    (callbacks : list callback) : Traversal :=
  let names := default ∅ (paths t !! resourceId) in
  let parents := default ∅ (names !! name) in
  let methods := default ∅ (parents !! parent) in
  mkTraversal (resources t)
    (<[resourceId := <[name := <[parent := <[method := callbacks]> methods]>
                                 parents]> names]> (paths t))
    (root t).

(** Lines 139-151 of [registerResourcePath]. *)
Definition store_path (t : Traversal) (resourceId name parent method : string)
    (callbacks : list callback) : result Traversal :=
  match reached_member t resourceId name parent method with
  | Some member => Outside member
  | None => Ok (store_own t resourceId name parent method callbacks)
  end.

(** [Traversal.prototype.registerResourcePath]; [callbacks] is
    [arguments.slice(2)]. *)
Definition registerResourcePath (t : Traversal) (resourceId : string)
    (ops : Ops) (callbacks : list callback) : result Traversal :=
  match root t with
  | None => Throw RootNotSet
  | Some _ =>
      rbind (checkResource t resourceId) (fun _ =>
      rbind (if truthy (ops_parent ops)
             then checkResource t (prop_key (ops_parent ops))
             else Ok tt) (fun _ =>
      match callbacks with
      | [] => Throw MissingHandlers
      | _ =>
          if forallb is_function callbacks then
            let name := js_or (ops_name ops) "index" in
            let parent := js_or (ops_parent ops) "all" in
            let method :=
              match ops_method ops with
              | JStr m => if truthy_str m then toLowerCase m else "all"
              | _ => "all"
              end in
            store_path t resourceId name parent method callbacks
          else Throw InvalidHandlerType
      end))
  end.

(** [Traversal.prototype.getResourcePath]; [None] stands for the absent
    results [null] and [undefined]. [ops.method.toLowerCase()] is evaluated
    once a parent table was found, and raises when [ops.method] is not a
    string. *)
Definition getResourcePath (t : Traversal) (resourceId : string) (ops : Ops)
    : result (option (list callback)) :=
  match js_get (paths t) resourceId with
  | Own names =>
      match js_get names (js_or (ops_name ops) "index") with
      | Own name =>
          match
            match js_get name (prop_key (ops_parent ops)) with
            | Absent => js_get name "all"
            | found => found
            end
          with
          | Absent => Ok None
          | parent =>
              match ops_method ops with
              | JStr m =>
                  match parent with
                  | Own parent =>
                      match js_get parent (toLowerCase m) with
                      | Own cbs => Ok (Some cbs)
                      | Inherited member => Outside member
                      | Absent => Ok (parent !! "all")
                      end
                  | Inherited member => Outside member
                  | Absent => Ok None
                  end
              | _ => Throw TypeError
              end
          end
      | Inherited member => Outside member
      | Absent => Ok None
      end
  | Inherited member => Outside member
  | Absent => Ok None
  end.

(** [_build] inside [buildChain]; [paths] is the array of pending segments,
    consumed by [shift]. *)
Fixpoint _build (t : Traversal) (req : Req) (resource : Instance)
    (paths : list string) : M (Instance * Req) :=
  match paths with
  | [] => ret (resource, req)
  | path :: paths =>
      if truthy_str path then
        let* resource_n := get t resource path in
        match resource_n with
        | None =>
            ret (resource,
                 mkReq (url req) (method req) (JStr path) (Some paths)
                   (req_resource req) (req_buildResourceUrl req))
        | Some resource_n => _build t req resource_n paths
        end
      else ret (resource, req)
  end.

(** [req.url.split('/').filter(function(el){ return !!el; })] *)
Definition segments (u : string) : list string :=
  List.filter truthy_str (split "/" u).

(** [Traversal.prototype.buildChain] *)
Definition buildChain (t : Traversal) (req : Req) : M (Instance * Req) :=
  let paths := segments (url req) in
  match root t with
  | None => throw TypeError
  | Some fac =>
      let* root := new_ fac JUndefined None None in
      _build t req root paths
  end.

(** [Traversal.prototype.clear] *)
Definition clear (t : Traversal) : Traversal := mkTraversal ∅ ∅ None.

(** [_getKeyAndParent] inside [buildResourceUrl]; [parts] is the array it
    unshifts into. *)
Fixpoint _getKeyAndParent (resource : Instance) (parts : list string)
    : list string :=
  let parts :=
    if truthy (key resource) then prop_key (key resource) :: parts
    else parts in
  match parent resource with
  | Some p => _getKeyAndParent p parts
  | None => parts
  end.

(** [Traversal.prototype.buildResourceUrl] *)
Definition buildResourceUrl (resource : Instance) (pathname : jsval) : string :=
  let parts := if truthy pathname then [prop_key pathname] else [] in
  String.append "/" (join "/" (_getKeyAndParent resource parts)).

(** ** The dispatcher *)

(** The third argument a handler is called with: the inner function
    [_callback] or the [next] the middleware was given. *)
Inductive Cont : Type :=
  | K_callback
  | K_next.

(** What the dispatcher does to the outside: [callbacks[i](req, res, k)] or
    [next()]. *)
Inductive Effect : Type :=
  | Invoke (h : Handler) (req : Req) (res : Res) (k : Cont)
  | InvokeNext.

(** The variables [_callback] closes over. *)
Record Closure : Type := mkClosure {
  c_callbacks : list callback;
  c_req : Req;
  c_res : Res;
  c_i : Z
}.

(** [callbacks[i]]; an index outside the array reads [undefined]. *)
Definition array_get {A} (l : list A) (i : Z) : option A :=
  if 0 <=? i then l !! Z.to_nat i else None.

(** One call of [_callback]: it advances [i] and calls [callbacks[i]], which
    raises when that is not a function. *)
Definition _callback (c : Closure) : Closure * result Effect :=
  let i := c_i c + 1 in
  let c' := mkClosure (c_callbacks c) (c_req c) (c_res c) i in
  let k :=
    if i + 1 =? Z.of_nat (List.length (c_callbacks c)) then K_next
    else K_callback in
  match array_get (c_callbacks c) i with
  | Some (Fn h) => (c', Ok (Invoke h (c_req c) (c_res c) k))
  | _ => (c', Throw TypeError)
  end.

(** [traversal.middleware]: the request as the middleware leaves it, the
    closure of [_callback] when a handler chain was started, and the call
    the middleware ends with. *)
Definition middleware (t : Traversal) (req : Req) (res : Res)
    : M (Req * option Closure * Effect) :=
  let* built := buildChain t req in
  let leaf := fst built in
  let req := snd built in
  let req :=
    mkReq (url req) (method req) (pathname req) (subpath req)
      (Some leaf) true in
  let* callbacks :=
    lift (getResourcePath t (resource leaf)
            {| ops_name := pathname req;
               ops_method := method req;
               ops_parent := match parent leaf with
                             | Some p => JStr (resource p)
                             | None => JNull
                             end |}) in
  match callbacks with
  | Some ((_ :: _) as callbacks) =>
      let c := mkClosure callbacks req res (-1) in
      match _callback c with
      | (c', Ok e) => ret (req, Some c', e)
      | (_, Throw e) => throw e
      | (_, Outside m) => outside m
      end
  | _ => ret (req, None, InvokeNext)
  end.

(** ** Sequences of calls to the registration API *)

Inductive Command : Type :=
  | CRegisterResource (id : string) (p : Proto)
  | CSetRootResource (id : string)
  | CRegisterResourcePath (resourceId : string) (ops : Ops)
      (callbacks : list callback)
  | CClear.

(** The outcome of one call. *)
Definition call (t : Traversal) (c : Command) : result Traversal :=
  match c with
  | CRegisterResource id p => registerResource t id p
  | CSetRootResource id => setRootResource t id
  | CRegisterResourcePath id ops cbs => registerResourcePath t id ops cbs
  | CClear => Ok (clear t)
  end.

(** The traversal object after one call; a call that throws leaves it as it
    was, since every [throw] of the registration API precedes its first
    assignment. A call that goes on with a built-in object is not followed:
    the object is kept as it was. *)
Definition exec (t : Traversal) (c : Command) : Traversal :=
  match call t c with
  | Ok t' => t'
  | _ => t
  end.

(** No call of the sequence goes on with a built-in object. *)
Fixpoint stays_inside (t : Traversal) (cmds : list Command) : bool :=
  match cmds with
  | [] => true
  | c :: cmds =>
      match call t c with
      | Outside _ => false
      | _ => stays_inside (exec t c) cmds
      end
  end.

Definition is_setRoot (c : Command) : bool :=
  match c with
  | CSetRootResource _ => true
  | _ => false
  end.

(** The ancestors of an instance, nearest first. *)
Fixpoint ancestors_from (r : Instance) : list Instance :=
  r :: match parent r with
       | Some p => ancestors_from p
       | None => []
       end.

Definition ancestors (r : Instance) : list Instance :=
  match parent r with
  | Some p => ancestors_from p
  | None => []
  end.

(** The handler sequence stored at the 4-tuple key
    (resource type, name, parent type, method). *)
Definition path_entry (t : Traversal) (resourceId name parent method : string)
    : option (list callback) :=
  names ← paths t !! resourceId;
  parents ← names !! name;
  methods ← parents !! parent;
  methods !! method.

(** The method table registered for (resource type, name, parent type). *)
Definition path_bucket (t : Traversal) (resourceId name parent : string)
    : option (gmap string (list callback)) :=
  names ← paths t !! resourceId;
  parents ← names !! name;
  parents !! parent.

(** What the registration API maintains: a constructor is registered under
    its own id, and a stored handler sequence is a non-empty array of
    functions. *)
Definition well_formed (t : Traversal) : Prop :=
  (forall id fac, resources t !! id = Some fac -> f_id fac = id) /\
  (forall id n p m cbs,
     path_entry t id n p m = Some cbs ->
     cbs <> [] /\ forallb is_function cbs = true).

(** [get] resolving a segment to the resource type [id]: a registered type
    is constructed with the segment as key and the current instance as
    parent, and [init] is run on the instance; an id that is neither
    registered nor the name of a member of [Object.prototype] throws the
    "no registered resource" error. (An id that names such a member reads
    the member instead of a constructor.) *)
Definition resolves_to (t : Traversal) (id : string) (this : Instance)
    (k : string) : M (option Instance) :=
  match js_get (resources t) id with
  | Own fac =>
      fun w =>
        match f_init fac
                (mkInstance (f_id fac) (f_proto fac) (JStr k) (Some this) None)
                w with
        | (Ok inst, w') => (Ok (Some inst), w')
        | (Throw e, w') => (Throw e, w')
        | (Outside m, w') => (Outside m, w')
        end
  | Inherited member =>
      if String.eqb member "constructor" then outside member
      else throw TypeError
  | Absent => throw (UnregisteredResource id)
  end.

(** The type declares [children], and [k] is a key of it. *)
Definition literal_child (c : Class) (k id : string) : Prop :=
  exists m, children c = Some m /\ m !! k = Some id.

(** C2 as the specification states it: a segment that is a literal key of
    [children] resolves to the type it is mapped to. *)
Definition literal_key_resolves : Prop :=
  forall (t : Traversal) (this : Instance) (k id : string) (w : W),
    literal_child (proto this) k id ->
    get t this k w = resolves_to t id this k w.

(** Successive matches: from [r], the segments are consumed one by one,
    each [get] returning a child, down to [leaf]. *)
Inductive walk (t : Traversal)
    : Instance -> list string -> W -> Instance -> W -> Prop :=
  | walk_nil r w : walk t r [] w r w
  | walk_cons r seg segs w child w1 leaf w2 :
      get t r seg w = (Ok (Some child), w1) ->
      walk t child segs w1 leaf w2 ->
      walk t r (seg :: segs) w leaf w2.

(** What [buildChain] leaves in the request when it stops at [unresolved]:
    nothing when every segment was consumed, otherwise the unmatched
    segment in [pathname] and the segments after it in [subpath]. *)
Definition record_unresolved (req : Req) (unresolved : list string) : Req :=
  match unresolved with
  | [] => req
  | seg :: rest =>
      mkReq (url req) (method req) (JStr seg) (Some rest)
        (req_resource req) (req_buildResourceUrl req)
  end.

(** The unresolved subpath a request carries: the unmatched segment
    followed by the remaining ones. *)
Definition unresolved_subpath (req : Req) : list string :=
  match pathname req, subpath req with
  | JStr seg, Some rest => seg :: rest
  | _, _ => []
  end.

(** [init] leaves [key] and [parent] as the constructor set them. *)
Definition keeps_links (fac : Factory) : Prop :=
  forall i w i' w',
    f_init fac i w = (Ok i', w') -> key i' = key i /\ parent i' = parent i.

(** A path segment: not empty, and without a slash. *)
Fixpoint no_slash (s : string) : bool :=
  match s with
  | EmptyString => true
  | String c s' => negb (Ascii.eqb c "/") && no_slash s'
  end.

Definition is_segment (s : string) : bool := truthy_str s && no_slash s.

(** The calls the dispatcher makes when every handler calls the
    continuation it was given exactly once: after [e], a handler that holds
    [_callback] triggers the next call of [_callback], and a handler that
    holds [next] triggers [next()]. *)
Fixpoint run_chain (fuel : nat) (c : Closure) (e : Effect) : list Effect :=
  e :: match e with
       | Invoke _ _ _ K_callback =>
           match fuel with
           | O => []
           | S fuel =>
               match _callback c with
               | (c', Ok e') => run_chain fuel c' e'
               | (_, _) => []
               end
           end
       | Invoke _ _ _ K_next => [InvokeNext]
       | InvokeNext => []
       end.

(** The calls expected of a handler sequence: each handler but the last is
    given [_callback], the last one is given [next]. *)
Fixpoint chain_calls (req : Req) (res : Res) (hs : list Handler)
    : list Effect :=
  match hs with
  | [] => []
  | [h] => [Invoke h req res K_next]
  | h :: hs => Invoke h req res K_callback :: chain_calls req res hs
  end.

(** The request as the middleware hands it on. *)
Definition attach (req : Req) (leaf : Instance) : Req :=
  mkReq (url req) (method req) (pathname req) (subpath req) (Some leaf) true.

(** The lookup the middleware makes for the leaf. *)
Definition leaf_ops (req : Req) (leaf : Instance) : Ops :=
  {| ops_name := pathname req;
     ops_method := method req;
     ops_parent := match parent leaf with
                   | Some p => JStr (resource p)
                   | None => JNull
                   end |}.

(** ** Notions used by the further properties *)

(** The method key [registerResourcePath] stores under:
    [ops.method ? ops.method.toLowerCase() : 'all']. *)
Definition method_key (v : jsval) : string :=
  match v with
  | JStr m => if truthy_str m then toLowerCase m else "all"
  | _ => "all"
  end.

(** The path table agrees with the registry: every table of names belongs
    to a registered resource type, every method table stands under a parent
    key that is "all" or a registered type, the name and parent keys are not
    empty, and no key of these three levels names a member of
    [Object.prototype]. *)
Definition paths_consistent (t : Traversal) : Prop :=
  forall id names,
    paths t !! id = Some names ->
    is_Some (resources t !! id) /\ inherited id = false /\
    forall n parents,
      names !! n = Some parents ->
      n <> "" /\ inherited n = false /\
      forall p (methods : gmap string (list callback)),
        parents !! p = Some methods ->
        (p = "all" \/ is_Some (resources t !! p)) /\
        p <> "" /\ inherited p = false.

(** The truthy keys on the parent chain of an instance, root first. *)
Fixpoint keys_of (r : Instance) : list string :=
  (match parent r with
   | Some p => keys_of p
   | None => []
   end ++ if truthy (key r) then [prop_key (key r)] else [])%list.

(** A path made of slashes only. *)
Fixpoint only_slashes (s : string) : bool :=
  match s with
  | EmptyString => true
  | String c s' => Ascii.eqb c "/" && only_slashes s'
  end.

Definition is_clear (c : Command) : bool :=
  match c with
  | CClear => true
  | _ => false
  end.

(** [n] successive calls of [_callback], whoever makes them: the outcome
    of each. *)
Fixpoint call_n (n : nat) (c : Closure) : list (result Effect) :=
  match n with
  | O => []
  | S n => let (c', r) := _callback c in r :: call_n n c'
  end.

(** The outcome of the call of [_callback] that reaches position [j] of the
    handler sequence [hs]. *)
Definition call_at (req : Req) (res : Res) (hs : list Handler) (j : nat)
    : result Effect :=
  match hs !! j with
  | Some h =>
      Ok (Invoke h req res
            (if (S j =? List.length hs)%nat then K_next else K_callback))
  | None => Throw TypeError
  end.

End Model.

(** * A worked configuration

    The scenario of the specification: [users] is a static child of the
    root, a numeric segment under [users] is a dynamic child of type
    [user], and [user] declares no children. The world counts the calls of
    [init]; handlers are named by strings. *)

Module Scenario.

(** The runtime of the examples: lower-casing of ASCII letters, which is
    all the examples contain, and the text V8 prints for a built-in. *)
Definition lower_ascii (c : ascii) : ascii :=
  let n := nat_of_ascii c in
  if ((65 <=? n) && (n <=? 90))%nat then ascii_of_nat (n + 32) else c.

Fixpoint ascii_toLowerCase (s : string) : string :=
  match s with
  | EmptyString => EmptyString
  | String c s' => String (lower_ascii c) (ascii_toLowerCase s')
  end.

Definition v8_member_key (member : string) : string :=
  if String.eqb member "constructor" then "function Object() { [native code] }"
  else if String.eqb member "__proto__" then "[object Object]"
  else String.append "function "
         (String.append member "() { [native code] }").

#[export] Instance v8 : Runtime :=
  {| toLowerCase := ascii_toLowerCase; member_key := v8_member_key |}.

Definition counting_init (inst : @Instance unit) : @M nat (@Instance unit) :=
  fun n => (Ok inst, S n).

Definition is_digit (c : ascii) : bool :=
  let n := nat_of_ascii c in ((48 <=? n) && (n <=? 57))%nat.

Fixpoint all_digits (s : string) : bool :=
  match s with
  | EmptyString => true
  | String c s' => is_digit c && all_digits s'
  end.

Definition is_numeric (s : string) : bool := truthy_str s && all_digits s.

Definition root_proto : @Proto nat unit :=
  mkProto (Some {["users" := "users"]}) JUndefined None (Some counting_init).

Definition users_proto : @Proto nat unit :=
  mkProto None (JStr "user") (Some is_numeric) (Some counting_init).

Definition user_proto : @Proto nat unit :=
  mkProto None JUndefined None (Some counting_init).

Definition setup : list (@Command nat unit string) :=
  [ CRegisterResource "root" root_proto;
    CRegisterResource "users" users_proto;
    CRegisterResource "user" user_proto;
    CSetRootResource "root";
    CRegisterResourcePath "user"
      {| ops_name := JStr "edit"; ops_parent := JUndefined;
         ops_method := JStr "GET" |}
      [Fn "h1"; Fn "h2"; Fn "h3"] ].

Definition traversal : @Traversal nat unit string :=
  foldl exec new_Traversal setup.

Definition request (u : string) : @Req unit :=
  mkReq u (JStr "GET") JUndefined None None false.

Definition root_class : Class :=
  mkClass (Some {["users" := "users"]}) JUndefined default_childValidate.
Definition users_class : Class :=
  mkClass None (JStr "user") is_numeric.
Definition user_class : Class :=
  mkClass None JUndefined default_childValidate.

Definition root_factory : @Factory nat unit :=
  mkFactory "root" root_class counting_init.
Definition users_factory : @Factory nat unit :=
  mkFactory "users" users_class counting_init.
Definition user_factory : @Factory nat unit :=
  mkFactory "user" user_class counting_init.

Definition root_inst : @Instance unit :=
  mkInstance "root" root_class JUndefined None None.
Definition users_inst : @Instance unit :=
  mkInstance "users" users_class (JStr "users") (Some root_inst) None.
Definition user42_inst : @Instance unit :=
  mkInstance "user" user_class (JStr "42") (Some users_inst) None.

Definition edit_handlers : list (@callback string) :=
  [Fn "h1"; Fn "h2"; Fn "h3"].

(** The request after [buildChain] stopped at [edit], and after the
    middleware attached the leaf to it. *)
Definition edit_request : @Req unit :=
  mkReq "/users/42/edit" (JStr "GET") (JStr "edit") (Some []) None false.
Definition edit_request_attached : @Req unit :=
  mkReq "/users/42/edit" (JStr "GET") (JStr "edit") (Some [])
    (Some user42_inst) true.

(** A configuration in which the empty string is a registered type id, and
    an instance whose [children] maps the segment [x] to it. *)
Definition odd_traversal : @Traversal nat unit string :=
  foldl exec new_Traversal
    [CRegisterResource "" user_proto; CRegisterResource "c" user_proto].

Definition odd_inst : @Instance unit :=
  mkInstance "root"
    (mkClass (Some {["x" := ""]}) (JStr "c") default_childValidate)
    JUndefined None None.

(** Two entries for [user]: GET under the parent [users], POST under any
    parent. *)
Definition two_entries : @Traversal nat unit string :=
  foldl exec traversal
    [ CRegisterResourcePath "user"
        {| ops_name := JUndefined; ops_parent := JStr "users";
           ops_method := JStr "GET" |} [Fn "show"];
      CRegisterResourcePath "user"
        {| ops_name := JUndefined; ops_parent := JUndefined;
           ops_method := JStr "POST" |} [Fn "update"] ].

(** The configuration before and after [setRootResource]. *)
Definition registered : @Traversal nat unit string :=
  foldl exec new_Traversal
    [ CRegisterResource "root" root_proto;
      CRegisterResource "users" users_proto;
      CRegisterResource "user" user_proto ].

Definition rooted : @Traversal nat unit string :=
  mkTraversal (resources registered) (paths registered) (Some root_factory).

(** A handler for GET on [user], registered without name and parent. *)
Definition show_ops : Ops :=
  {| ops_name := JUndefined; ops_parent := JUndefined;
     ops_method := JStr "GET" |}.

Definition shown : @Traversal nat unit string :=
  store_own traversal "user" "index" "all" "get" [Fn "show"].

Definition reregistrations : list (@Command nat unit string) :=
  [ CRegisterResource "root" user_proto;
    CRegisterResourcePath "user" show_ops [Fn "show"] ].

Definition later_calls : list (@Command nat unit string) :=
  [ CRegisterResource "root" user_proto;
    CSetRootResource "ghost";
    CRegisterResourcePath "user" show_ops [Fn "show"] ].

End Scenario.

(** * Properties *)

Section Properties.

Context {W Opt Handler Res : Type} {runtime : Runtime}.

Local Abbreviation M := (@M W).
Local Abbreviation Instance := (@Instance Opt).
Local Abbreviation Factory := (@Factory W Opt).
Local Abbreviation Proto := (@Proto W Opt).
Local Abbreviation callback := (@callback Handler).
Local Abbreviation Traversal := (@Traversal W Opt Handler).
Local Abbreviation Req := (@Req Opt).
Local Abbreviation Command := (@Command W Opt Handler).
Local Abbreviation Closure := (@Closure Opt Handler Res).
Local Abbreviation Effect := (@Effect Opt Handler Res).

(** ** Resource.prototype.traverseTo *)

(** Induction along the [parent] links. *)
Lemma Instance_parent_ind (P : Instance -> Prop) :
  (forall rid c k o, P (mkInstance rid c k None o)) ->
  (forall rid c k p o, P p -> P (mkInstance rid c k (Some p) o)) ->
  forall r, P r.
Proof.
  intros Hroot Hchild. fix IH 1.
  intros [rid c k [p|] o].
  - apply Hchild, IH.
  - apply Hroot.
Qed.

Lemma _traverseTo_obj_find (resourceId : string) (r : Instance) :
  _traverseTo_obj resourceId r =
  List.find (fun a => String.eqb (resource a) resourceId) (ancestors_from r).
Proof.
  induction r as [rid c k o | rid c k p o IH] using Instance_parent_ind;
    simpl; destruct (String.eqb rid resourceId); auto.
Qed.

(** Where the instance has a parent, [traverseTo] returns the nearest
    ancestor of the requested type, and [null] when there is none. *)
Lemma traverseTo_with_parent (this p : Instance) (resourceId : string) :
  parent this = Some p ->
  traverseTo this resourceId =
  Ok (List.find (fun a => String.eqb (resource a) resourceId) (ancestors this)).
Proof.
  intros Hp. unfold traverseTo, ancestors. rewrite Hp. simpl.
  by rewrite _traverseTo_obj_find.
Qed.

(** C7: on an instance without a parent, such as the root of a chain,
    [traverseTo] does not return null: reading [resource.resource] of the
    undefined parent raises a TypeError before the guard
    [resource && resource.parent] is reached. *)
Theorem traverseTo_without_parent_throws
    (rid : string) (c : Class) (k : jsval) (o : option Opt)
    (resourceId : string) :
  traverseTo (mkInstance rid c k None o) resourceId = Throw TypeError.
Proof. reflexivity. Qed.

(** ** The path handler table *)

Lemma path_entry_store (t : Traversal) (id name parent method : string)
    (cbs : list callback) :
  path_entry (store_own t id name parent method cbs) id name parent method
  = Some cbs.
Proof.
  unfold path_entry, store_own; simpl.
  rewrite lookup_insert_eq; simpl.
  rewrite lookup_insert_eq; simpl.
  rewrite lookup_insert_eq; simpl.
  by rewrite lookup_insert_eq.
Qed.

(** Storing a handler sequence changes the entry at its key and no other. *)
Lemma path_entry_store_other (t : Traversal) (id name parent method : string)
    (cbs : list callback) (id' name' parent' method' : string) :
  (id, name, parent, method) <> (id', name', parent', method') ->
  path_entry (store_own t id name parent method cbs) id' name' parent' method'
  = path_entry t id' name' parent' method'.
Proof.
  intros Hne. unfold path_entry, store_own; simpl.
  destruct (decide (id = id')) as [<-|Hid];
    [rewrite lookup_insert_eq | by rewrite lookup_insert_ne]; simpl.
  destruct (paths t !! id) as [names|]; simpl.
  - destruct (decide (name = name')) as [<-|Hname];
      [rewrite lookup_insert_eq | by rewrite lookup_insert_ne]; simpl.
    destruct (names !! name) as [parents|]; simpl.
    + destruct (decide (parent = parent')) as [<-|Hparent];
        [rewrite lookup_insert_eq | by rewrite lookup_insert_ne]; simpl.
      destruct (parents !! parent) as [methods|]; simpl.
      * destruct (decide (method = method')) as [<-|Hmethod];
          [done | by rewrite lookup_insert_ne].
      * destruct (decide (method = method')) as [<-|Hmethod];
          [done | by rewrite lookup_insert_ne].
    + destruct (decide (parent = parent')) as [<-|Hparent];
        [rewrite lookup_insert_eq | by rewrite lookup_insert_ne]; simpl.
      destruct (decide (method = method')) as [<-|Hmethod];
        [done | by rewrite lookup_insert_ne].
  - destruct (decide (name = name')) as [<-|Hname];
      [rewrite lookup_insert_eq | by rewrite lookup_insert_ne]; simpl.
    destruct (decide (parent = parent')) as [<-|Hparent];
      [rewrite lookup_insert_eq | by rewrite lookup_insert_ne]; simpl.
    destruct (decide (method = method')) as [<-|Hmethod];
      [done | by rewrite lookup_insert_ne].
Qed.

Lemma path_entry_bucket (t : Traversal) (id name parent method : string) :
  path_entry t id name parent method =
  path_bucket t id name parent ≫= (.!! method).
Proof.
  unfold path_entry, path_bucket.
  destruct (paths t !! id) as [names|]; simpl; [|done].
  destruct (names !! name) as [parents|]; simpl; [|done].
  by destruct (parents !! parent).
Qed.

(** ** Resource.prototype.get *)

Lemma get_selected (t : Traversal) (this : Instance) (k id : string) (w : W) :
  static_child (proto this) k = Some id \/
  (static_child (proto this) k = None /\
   dynamic_child (proto this) k = Some id) ->
  get t this k w = resolves_to t id this k w.
Proof.
  intros Hsel.
  assert (Hfac :
    get t this k w =
    bind (lift (rbind (checkResource t id)
                  (fun _ => Ok (js_get (resources t) id))))
      (fun factory => new_or_null factory (JStr k) (Some this) None) w).
  { unfold get. by destruct Hsel as [-> | [-> ->]]. }
  rewrite Hfac. unfold resolves_to, bind, lift, new_or_null, new_, checkResource.
  destruct (js_get (resources t) id) as [fac|member|]; simpl.
  - unfold bind. by destruct (f_init fac _ w) as [[inst|e|m] w'].
  - by destruct (String.eqb member "constructor").
  - done.
Qed.

Lemma js_get_own {V : Type} (o : gmap string V) (k : string) (v : V) :
  o !! k = Some v -> js_get o k = Own v.
Proof. intros Hk. unfold js_get. by rewrite Hk. Qed.

Lemma js_get_absent {V : Type} (o : gmap string V) (k : string) :
  o !! k = None -> inherited k = false -> js_get o k = Absent.
Proof. intros Hk Hin. unfold js_get. by rewrite Hk, Hin. Qed.

Lemma js_get_inherited {V : Type} (o : gmap string V) (k : string) :
  o !! k = None -> inherited k = true -> js_get o k = Inherited k.
Proof. intros Hk Hin. unfold js_get. by rewrite Hk, Hin. Qed.

Lemma get_unselected (t : Traversal) (this : Instance) (k : string) (w : W) :
  static_child (proto this) k = None ->
  dynamic_child (proto this) k = None ->
  get t this k w = (Ok None, w).
Proof. intros Hs Hd. unfold get, bind. by rewrite Hs, Hd. Qed.

Lemma truthy_str_true (s : string) : truthy_str s = true <-> s <> "".
Proof.
  unfold truthy_str. rewrite negb_true_iff.
  destruct (String.eqb_spec s ""); split; congruence.
Qed.

Lemma truthy_str_false (s : string) : truthy_str s = false <-> s = "".
Proof.
  unfold truthy_str. rewrite negb_false_iff.
  destruct (String.eqb_spec s ""); split; congruence.
Qed.

(** C2, amended: for a segment that is no member name of
    [Object.prototype] where the type declares [children], [get] resolves
    in this order. A literal key of [children] mapped to a non-empty type id
    resolves to that type; otherwise a non-empty dynamic [child] type whose
    [childValidate] accepts the segment resolves to that type; otherwise
    [get] returns null. Resolving to a type constructs it when it is
    registered, and throws when the id is neither registered nor a member
    name of [Object.prototype]. *)
Theorem get_resolution_order (t : Traversal) (this : Instance) (k : string)
    (w : W) :
  (forall id,
     literal_child (proto this) k id -> id <> "" ->
     get t this k w = resolves_to t id this k w) /\
  (forall id,
     (forall id', literal_child (proto this) k id' -> id' = "") ->
     (is_Some (children (proto this)) -> inherited k = false) ->
     child (proto this) = JStr id -> id <> "" ->
     childValidate (proto this) k = true ->
     get t this k w = resolves_to t id this k w) /\
  ((forall id', literal_child (proto this) k id' -> id' = "") ->
   (is_Some (children (proto this)) -> inherited k = false) ->
   (forall id, child (proto this) = JStr id -> id <> "" ->
      childValidate (proto this) k = false) ->
   get t this k w = (Ok None, w)) /\
  (forall id fac inst w',
     resources t !! id = Some fac ->
     f_init fac (mkInstance (f_id fac) (f_proto fac) (JStr k) (Some this) None)
       w = (Ok inst, w') ->
     resolves_to t id this k w = (Ok (Some inst), w')) /\
  (forall id,
     resources t !! id = None -> inherited id = false ->
     resolves_to t id this k w = (Throw (UnregisteredResource id), w)).
Proof.
  assert (Hnone :
    (forall id', literal_child (proto this) k id' -> id' = "") ->
    (is_Some (children (proto this)) -> inherited k = false) ->
    static_child (proto this) k = None).
  { intros Hlit Hplain. unfold static_child.
    destruct (children (proto this)) as [m|] eqn:Hm; [|done].
    destruct (m !! k) as [id'|] eqn:Hk.
    - rewrite (js_get_own _ _ _ Hk).
      rewrite (Hlit id'); [done|]. by exists m.
    - by rewrite js_get_absent by eauto. }
  split_and!.
  - intros id (m & Hm & Hk) Hid. apply get_selected. left.
    unfold static_child. rewrite Hm, (js_get_own _ _ _ Hk).
    apply truthy_str_true in Hid. by rewrite Hid.
  - intros id Hlit Hplain Hc Hid Hv. apply get_selected. right.
    split; [by apply Hnone|].
    unfold dynamic_child. rewrite Hc, Hv.
    apply truthy_str_true in Hid. by rewrite Hid.
  - intros Hlit Hplain Hdyn. apply get_unselected; [by apply Hnone|].
    unfold dynamic_child.
    destruct (child (proto this)) as [| |id] eqn:Hc; try done.
    destruct (truthy_str id) eqn:Hid; [|done].
    rewrite (Hdyn id); [done..|]. by apply truthy_str_true.
  - intros id fac inst w' Hfac Hinit. unfold resolves_to.
    by rewrite (js_get_own _ _ _ Hfac), Hinit.
  - intros id Hid Hplain. unfold resolves_to.
    by rewrite js_get_absent.
Qed.

(** C6: when [get] finds a match, the matched type is instantiated with the
    segment as [key] and the current instance as [parent] (and no options);
    [init] is then run once on that instance, which already carries [key]
    and [parent]; the outcome and the effects of [get] are those of that
    one call, and the instance [init] leaves is what [get] returns. *)
Theorem get_constructs_then_inits (t : Traversal) (this : Instance)
    (k id : string) (fac : Factory) (w : W) :
  static_child (proto this) k = Some id \/
  (static_child (proto this) k = None /\
   dynamic_child (proto this) k = Some id) ->
  resources t !! id = Some fac ->
  let constructed :=
    mkInstance (f_id fac) (f_proto fac) (JStr k) (Some this) None in
  key constructed = JStr k /\ parent constructed = Some this /\
  get t this k w =
  match f_init fac constructed w with
  | (Ok inst, w') => (Ok (Some inst), w')
  | (Throw e, w') => (Throw e, w')
  | (Outside m, w') => (Outside m, w')
  end.
Proof.
  intros Hsel Hfac constructed. split_and!; try reflexivity.
  rewrite (get_selected _ _ _ _ _ Hsel). unfold resolves_to.
  by rewrite (js_get_own _ _ _ Hfac).
Qed.

(** ** Traversal.prototype.buildChain *)

Lemma split_not_nil (s : string) : split "/" s <> [].
Proof.
  destruct s as [|c s]; simpl; [done|].
  destruct (Ascii.eqb c "/"); [done|]. by destruct (split "/" s).
Qed.

(** [split] cuts at the slashes and nowhere else: joining the pieces with
    slashes gives the string back, and no piece contains a slash. *)
Lemma join_split (s : string) : join "/" (split "/" s) = s.
Proof.
  induction s as [|c s IH]; [done|]. simpl split.
  pose proof (split_not_nil s) as Hne.
  destruct (Ascii.eqb_spec c "/") as [->|Hc].
  - destruct (split "/" s) as [|x xs]; [done|].
    change (join "/" ("" :: x :: xs)) with (String "/" (join "/" (x :: xs))).
    by rewrite IH.
  - destruct (split "/" s) as [|x xs]; [done|].
    rewrite <- IH. by destruct xs.
Qed.

Lemma split_pieces (s : string) :
  Forall (fun x => no_slash x = true) (split "/" s).
Proof.
  induction s as [|c s IH]; simpl; [by repeat constructor|].
  destruct (Ascii.eqb c "/") eqn:Hc; [by constructor|].
  destruct (split "/" s) as [|x xs]; [by repeat constructor; simpl; rewrite Hc|].
  apply Forall_cons in IH as [Hx Hxs].
  constructor; [|done]. simpl. by rewrite Hc, Hx.
Qed.

Lemma segments_are_segments (u : string) :
  Forall (fun s => is_segment s = true) (segments u).
Proof.
  unfold segments. pose proof (split_pieces u) as Hall.
  induction Hall as [|x xs Hx _ IH]; simpl; [done|].
  destruct (truthy_str x) eqn:Hty; [|done].
  constructor; [|done]. unfold is_segment. by rewrite Hty, Hx.
Qed.

Lemma segments_truthy (u : string) :
  Forall (fun s => truthy_str s = true) (segments u).
Proof.
  unfold segments. apply List.Forall_forall. intros s Hs.
  by apply List.filter_In in Hs as [_ Hs].
Qed.

Lemma _build_greedy (t : Traversal) (req : Req) (paths : list string) :
  Forall (fun s => truthy_str s = true) paths ->
  forall (r : Instance) (w : W) (leaf : Instance) (req' : Req) (w' : W),
    _build t req r paths w = (Ok (leaf, req'), w') <->
    exists (matched unresolved : list string) (wl : W),
      paths = (matched ++ unresolved)%list /\
      walk t r matched w leaf wl /\
      req' = record_unresolved req unresolved /\
      match unresolved with
      | [] => w' = wl
      | seg :: _ => get t leaf seg wl = (Ok None, w')
      end.
Proof.
  induction paths as [|path paths IH]; intros Hall r w leaf req' w'.
  - simpl. unfold ret. split.
    + intros [= <- <- <-]. exists [], [], w. split_and!; try done. constructor.
    + intros (matched & unresolved & wl & Heq & Hwalk & -> & Hstop).
      symmetry in Heq. apply app_eq_nil in Heq as [-> ->].
      inversion Hwalk; subst. done.
  - apply Forall_cons in Hall as [Hpath Hall].
    simpl. rewrite Hpath. unfold bind.
    destruct (get t r path w) as [[[child|]|e|member] w1] eqn:Hget.
    + rewrite (IH Hall). split.
      * intros (matched & unresolved & wl & -> & Hwalk & -> & Hstop).
        exists (path :: matched), unresolved, wl.
        split_and!; try done. by econstructor.
      * intros (matched & unresolved & wl & Heq & Hwalk & -> & Hstop).
        destruct matched as [|seg matched]; simpl in Heq.
        -- inversion Hwalk; subst. congruence.
        -- injection Heq as <- ->. inversion Hwalk; subst.
           assert (child0 = child /\ w2 = w1) as [-> ->] by (split; congruence).
           by exists matched, unresolved, wl.
    + unfold ret. split.
      * intros [= <- <- <-]. exists [], (path :: paths), w.
        split_and!; try done. constructor.
      * intros (matched & unresolved & wl & Heq & Hwalk & -> & Hstop).
        destruct matched as [|seg matched]; simpl in Heq.
        -- inversion Hwalk; subst. simpl in Hstop. simpl.
           assert (w' = w1) as -> by congruence. done.
        -- injection Heq as <- ->. inversion Hwalk; subst. congruence.
    + split; [done|].
      intros (matched & unresolved & wl & Heq & Hwalk & -> & Hstop).
      destruct matched as [|seg matched]; simpl in Heq.
      * inversion Hwalk; subst. congruence.
      * injection Heq as <- ->. inversion Hwalk; subst. congruence.
    + split; [done|].
      intros (matched & unresolved & wl & Heq & Hwalk & -> & Hstop).
      destruct matched as [|seg matched]; simpl in Heq.
      * inversion Hwalk; subst. congruence.
      * injection Heq as <- ->. inversion Hwalk; subst. congruence.
Qed.

(** C1: [buildChain] splits the path on '/', drops the empty segments,
    constructs the root instance and consumes the segments from the left by
    [get] on the current instance: the segments are the non-empty pieces of
    the path between its slashes, and it returns [leaf] exactly when the
    segments divide into a consumed prefix that leads from the root to
    [leaf] by successive matches, and a rest that is empty, or whose first
    segment finds no match on [leaf]; that segment and the ones after it are
    then recorded in the request as its unresolved subpath ([pathname] and
    [subpath]). *)
Theorem buildChain_greedy (t : Traversal) (fac : Factory) (req : Req)
    (w w0 : W) (root_inst : Instance) :
  root t = Some fac ->
  new_ fac JUndefined None None w = (Ok root_inst, w0) ->
  join "/" (split "/" (url req)) = url req /\
  segments (url req) = List.filter truthy_str (split "/" (url req)) /\
  Forall (fun s => is_segment s = true) (segments (url req)) /\
  forall (leaf : Instance) (req' : Req) (w' : W),
    buildChain t req w = (Ok (leaf, req'), w') <->
    exists (matched unresolved : list string) (wl : W),
      segments (url req) = (matched ++ unresolved)%list /\
      walk t root_inst matched w0 leaf wl /\
      req' = record_unresolved req unresolved /\
      match unresolved with
      | [] => w' = wl
      | seg :: rest =>
          get t leaf seg wl = (Ok None, w') /\
          unresolved_subpath req' = seg :: rest
      end.
Proof.
  intros Hroot Hnew.
  split; [apply join_split|]. split; [reflexivity|].
  split; [apply segments_are_segments|]. intros leaf req' w'.
  unfold buildChain, bind. rewrite Hroot, Hnew.
  rewrite (_build_greedy _ _ _ (segments_truthy _)).
  split; intros (matched & unresolved & wl & Heq & Hwalk & -> & Hstop);
    exists matched, unresolved, wl; split_and!; try done;
    destruct unresolved as [|seg rest]; try done.
  by destruct Hstop.
Qed.

(** ** Traversal.prototype.buildResourceUrl *)

Lemma split_no_slash (s : string) :
  no_slash s = true -> split "/" s = [s].
Proof.
  induction s as [|c s IH]; simpl; [done|].
  intros [Hc Hs]%andb_true_iff. apply negb_true_iff in Hc.
  rewrite Hc, (IH Hs). done.
Qed.

Lemma split_append (s rest : string) :
  no_slash s = true ->
  split "/" (String.append s (String "/" rest)) = s :: split "/" rest.
Proof.
  induction s as [|c s IH]; simpl; [done|].
  intros [Hc Hs]%andb_true_iff. apply negb_true_iff in Hc.
  rewrite Hc, (IH Hs). done.
Qed.

Lemma split_join (segs : list string) :
  Forall (fun s => is_segment s = true) segs ->
  split "/" (join "/" segs) = match segs with [] => [""] | _ => segs end.
Proof.
  induction segs as [|x [|y segs] IH]; intros Hall; [done| |].
  - apply Forall_cons in Hall as [[_ Hx]%andb_true_iff _].
    simpl. by apply split_no_slash.
  - apply Forall_cons in Hall as [[_ Hx]%andb_true_iff Hall].
    change (join "/" (x :: y :: segs))
      with (String.append x (String "/" (join "/" (y :: segs)))).
    rewrite (split_append _ _ Hx), (IH Hall). done.
Qed.

Lemma filter_segments (segs : list string) :
  Forall (fun s => is_segment s = true) segs ->
  List.filter truthy_str segs = segs.
Proof.
  induction 1 as [|x segs [Hx _]%andb_true_iff _ IH]; simpl; [done|].
  by rewrite Hx, IH.
Qed.

(** Splitting a canonical path gives back its segments. *)
Lemma segments_join (segs : list string) :
  Forall (fun s => is_segment s = true) segs ->
  segments (String.append "/" (join "/" segs)) = segs.
Proof.
  intros Hall. unfold segments.
  change (String.append "/" (join "/" segs)) with (String "/" (join "/" segs)).
  simpl. rewrite (split_join _ Hall). destruct segs as [|x segs]; [done|].
  by apply filter_segments.
Qed.

Lemma resolves_to_Some_inv (t : Traversal) (id : string)
    (this child : Instance) (k : string) (w w' : W) :
  resolves_to t id this k w = (Ok (Some child), w') ->
  exists fac,
    resources t !! id = Some fac /\
    f_init fac (mkInstance (f_id fac) (f_proto fac) (JStr k) (Some this) None) w
    = (Ok child, w').
Proof.
  unfold resolves_to, js_get.
  destruct (resources t !! id) as [fac|] eqn:Hfac.
  - destruct (f_init fac _ w) as [[inst|e|m] w1] eqn:Hinit; try done.
    intros [= <- <-]. by exists fac.
  - destruct (inherited id); [|done].
    by destruct (String.eqb id "constructor").
Qed.

Lemma get_Some_inv (t : Traversal) (this child : Instance) (k : string)
    (w w' : W) :
  get t this k w = (Ok (Some child), w') ->
  exists id fac,
    resources t !! id = Some fac /\
    f_init fac (mkInstance (f_id fac) (f_proto fac) (JStr k) (Some this) None) w
    = (Ok child, w').
Proof.
  destruct (static_child (proto this) k) as [id|] eqn:Hs.
  - rewrite (get_selected _ _ _ id) by auto.
    intros (fac & Hfac & Hinit)%resolves_to_Some_inv. by exists id, fac.
  - destruct (dynamic_child (proto this) k) as [id|] eqn:Hd.
    + rewrite (get_selected _ _ _ id) by auto.
      intros (fac & Hfac & Hinit)%resolves_to_Some_inv. by exists id, fac.
    + by rewrite get_unselected.
Qed.

Lemma walk_keys (t : Traversal) (r leaf : Instance) (segs : list string)
    (w w' : W) :
  (forall id fac, resources t !! id = Some fac -> keeps_links fac) ->
  Forall (fun s => truthy_str s = true) segs ->
  walk t r segs w leaf w' ->
  forall parts,
    _getKeyAndParent leaf parts = _getKeyAndParent r (segs ++ parts)%list.
Proof.
  intros Hkeep Hall Hwalk.
  induction Hwalk as [r w | r seg segs w child w1 leaf w2 Hget _ IH];
    intros parts; [done|].
  apply Forall_cons in Hall as [Hseg Hall].
  rewrite (IH Hall).
  apply get_Some_inv in Hget as (id & fac & Hfac & Hinit).
  apply (Hkeep _ _ Hfac) in Hinit as [Hkey Hparent]. simpl in Hkey, Hparent.
  destruct child as [rid c k p o]. simpl in Hkey, Hparent. subst k p.
  simpl. by rewrite Hseg.
Qed.

(** C8: for a canonical path "/s1/.../sn" whose segments are all consumed
    as children that keep their key and parent, building the chain and then
    rebuilding the URL from the leaf gives the path back. *)
Theorem buildResourceUrl_roundtrip (t : Traversal) (fac : Factory) (req : Req)
    (segs : list string) (w w0 wl : W) (root_inst leaf : Instance) :
  root t = Some fac ->
  keeps_links fac ->
  (forall id f, resources t !! id = Some f -> keeps_links f) ->
  Forall (fun s => is_segment s = true) segs ->
  url req = String.append "/" (join "/" segs) ->
  new_ fac JUndefined None None w = (Ok root_inst, w0) ->
  walk t root_inst segs w0 leaf wl ->
  buildChain t req w = (Ok (leaf, req), wl) /\
  buildResourceUrl leaf JUndefined = url req.
Proof.
  intros Hroot Hkroot Hkeep Hsegs Hurl Hnew Hwalk. split.
  - unfold buildChain, bind. rewrite Hroot, Hnew.
    apply (_build_greedy _ _ _ (segments_truthy _)).
    exists segs, [], wl. rewrite app_nil_r, Hurl.
    split_and!; try done. by apply segments_join.
  - unfold buildResourceUrl. simpl truthy. cbv iota.
    assert (Htruthy : Forall (fun s => truthy_str s = true) segs).
    { eapply Forall_impl; [exact Hsegs|].
      by intros s [Hs _]%andb_true_iff. }
    rewrite (walk_keys _ _ _ _ _ _ Hkeep Htruthy Hwalk), app_nil_r.
    apply Hkroot in Hnew as [Hkey Hparent]. simpl in Hkey, Hparent.
    destruct root_inst as [rid c k p o]. simpl in Hkey, Hparent. subst k p.
    simpl _getKeyAndParent. by rewrite Hurl.
Qed.

(** ** The dispatcher *)

Lemma array_get_app {A} (pre : list A) (x : A) (post : list A) :
  array_get (pre ++ x :: post)%list (Z.of_nat (List.length pre)) = Some x.
Proof.
  unfold array_get.
  destruct (Z.leb_spec 0 (Z.of_nat (List.length pre))); [|lia].
  rewrite Nat2Z.id. by apply list_lookup_middle.
Qed.

(** One call of [_callback] when [i] handlers have been called: it calls
    handler [i+1], with [next] when that is the last one. *)
Lemma _callback_step (req : Req) (res : Res) (pre : list Handler)
    (h : Handler) (post : list Handler) :
  let cbs := (Fn <$> (pre ++ h :: post))%list in
  _callback (mkClosure cbs req res (Z.of_nat (List.length pre) - 1)) =
  (mkClosure cbs req res (Z.of_nat (List.length pre)),
   Ok (Invoke h req res
         match post with [] => K_next | _ => K_callback end)).
Proof.
  intros cbs. unfold _callback. simpl.
  replace (Z.of_nat (List.length pre) - 1 + 1) with (Z.of_nat (List.length pre))
    by lia.
  assert (Hget : array_get cbs (Z.of_nat (List.length pre)) = Some (Fn h)).
  { unfold cbs. rewrite fmap_app, fmap_cons.
    rewrite <- (length_fmap Fn pre). apply array_get_app. }
  assert (Hlen : List.length cbs = (List.length pre + S (List.length post))%nat).
  { unfold cbs. by rewrite length_fmap, length_app. }
  rewrite Hget, Hlen. do 3 f_equal.
  destruct post as [|h' post]; simpl.
  - destruct (Z.eqb_spec (Z.of_nat (List.length pre) + 1)
                (Z.of_nat (List.length pre + 1))); [done|lia].
  - destruct (Z.eqb_spec (Z.of_nat (List.length pre) + 1)
                (Z.of_nat (List.length pre + S (S (List.length post)))));
      [lia|done].
Qed.

Lemma run_chain_from (req : Req) (res : Res) (post : list Handler) :
  forall (pre : list Handler) (h : Handler) (fuel : nat),
    (List.length post <= fuel)%nat ->
    run_chain fuel
      (mkClosure (Fn <$> (pre ++ h :: post))%list req res
         (Z.of_nat (List.length pre)))
      (Invoke h req res match post with [] => K_next | _ => K_callback end)
    = (chain_calls req res (h :: post) ++ [InvokeNext])%list.
Proof.
  induction post as [|h' post IH]; intros pre h fuel Hfuel.
  - by destruct fuel.
  - destruct fuel as [|fuel]; [simpl in Hfuel; lia|].
    simpl run_chain.
    pose proof (_callback_step req res (pre ++ [h]) h' post) as Hstep.
    simpl in Hstep. rewrite <- !app_assoc in Hstep. simpl in Hstep.
    rewrite length_app in Hstep. simpl in Hstep.
    replace (Z.of_nat (List.length pre + 1) - 1)
      with (Z.of_nat (List.length pre)) in Hstep by lia.
    rewrite Hstep.
    specialize (IH (pre ++ [h])%list h' fuel).
    rewrite <- !app_assoc, length_app in IH. simpl in IH.
    rewrite IH by (simpl in Hfuel; lia).
    done.
Qed.

Local Arguments _callback : simpl never.

(** C3: when the lookup for the leaf finds the handler sequence
    [h1 .. hn], the middleware calls [h1]; each handler but the last is
    given the internal continuation [_callback], whose call invokes the
    next handler of the sequence, and the last one is given the external
    [next]; so the calls are [h1 .. hn] in registration order and then
    [next]. When no sequence is found, or an empty one, the middleware
    calls [next] directly. *)
Theorem middleware_continuation_chain (t : Traversal) (req : Req) (res : Res)
    (w w1 : W) (leaf : Instance) (req1 : Req)
    (found : option (list callback)) :
  buildChain t req w = (Ok (leaf, req1), w1) ->
  getResourcePath t (resource leaf) (leaf_ops req1 leaf) = Ok found ->
  let req2 := attach req1 leaf in
  (forall h hs,
     found = Some (Fn <$> (h :: hs))%list ->
     let c := mkClosure (Fn <$> (h :: hs))%list req2 res 0 in
     let e :=
       Invoke h req2 res match hs with [] => K_next | _ => K_callback end in
     middleware t req res w = (Ok (req2, Some c, e), w1) /\
     run_chain (List.length hs) c e
     = (chain_calls req2 res (h :: hs) ++ [InvokeNext])%list /\
     forall pre hi hj post,
         (h :: hs = pre ++ hi :: hj :: post)%list ->
         _callback (mkClosure (Fn <$> (h :: hs))%list req2 res
                      (Z.of_nat (List.length pre)))
         = (mkClosure (Fn <$> (h :: hs))%list req2 res
              (Z.of_nat (List.length pre) + 1),
            Ok (Invoke hj req2 res
                  match post with [] => K_next | _ => K_callback end))) /\
  (found = None \/ found = Some [] ->
   middleware t req res w = (Ok (req2, None, InvokeNext), w1)).
Proof.
  intros Hbuild Hfound req2. split.
  - intros h hs ->.
    pose proof (_callback_step req2 res [] h hs) as Hstep.
    change (_callback (mkClosure (Fn <$> h :: hs) req2 res (-1)) =
            (mkClosure (Fn <$> h :: hs) req2 res 0,
             Ok (Invoke h req2 res
                   match hs with [] => K_next | _ => K_callback end)))
      in Hstep.
    intros c e. split_and!.
    + unfold middleware, bind, lift. rewrite Hbuild. simpl.
      fold (attach req1 leaf). fold req2.
      change {| ops_name := pathname req1;
                ops_parent := match parent leaf with
                              | Some p => JStr (resource p)
                              | None => JNull
                              end;
                ops_method := method req1 |} with (leaf_ops req1 leaf).
      rewrite Hfound, fmap_cons. cbv beta iota zeta.
      rewrite <- fmap_cons, Hstep. reflexivity.
    + apply (run_chain_from req2 res hs [] h). lia.
    + intros pre hi hj post Heq. rewrite Heq.
      pose proof (_callback_step req2 res (pre ++ [hi]) hj post) as Hs.
      simpl in Hs. rewrite <- !app_assoc, length_app in Hs. simpl in Hs.
      replace (Z.of_nat (List.length pre + 1) - 1)
        with (Z.of_nat (List.length pre)) in Hs by lia.
      replace (Z.of_nat (List.length pre + 1))
        with (Z.of_nat (List.length pre) + 1) in Hs by lia.
      exact Hs.
  - intros Hnone. unfold middleware, bind, lift. rewrite Hbuild. simpl.
    fold (attach req1 leaf). fold req2.
    change {| ops_name := pathname req1;
              ops_parent := match parent leaf with
                            | Some p => JStr (resource p)
                            | None => JNull
                            end;
              ops_method := method req1 |} with (leaf_ops req1 leaf).
    rewrite Hfound. by destruct Hnone as [-> | ->].
Qed.

(** ** What the registration API maintains *)

Lemma registerResourcePath_Ok_inv (t t' : Traversal) (id : string)
    (ops : Ops) (cbs : list callback) :
  registerResourcePath t id ops cbs = Ok t' ->
  cbs <> [] /\ forallb is_function cbs = true /\
  exists n p m, t' = store_own t id n p m cbs.
Proof.
  unfold registerResourcePath.
  destruct (root t); [|done].
  destruct (checkResource t id); [|done..]. simpl.
  destruct (if truthy (ops_parent ops) then _ else _); [|done..]. simpl.
  destruct cbs as [|c cbs]; [done|].
  destruct (forallb is_function (c :: cbs)) eqn:Hfn; [|done].
  unfold store_path. destruct (reached_member _ _ _ _ _); [done|].
  intros [= <-]. split_and!; [done | done | eauto].
Qed.

Lemma new_Traversal_well_formed : well_formed (@new_Traversal W Opt Handler).
Proof.
  split.
  - intros id fac H. unfold new_Traversal in H. cbn [resources] in H.
    by rewrite lookup_empty in H.
  - intros id n p m cbs H. unfold path_entry, new_Traversal in H.
    cbn [paths] in H. by rewrite lookup_empty in H.
Qed.

Lemma exec_well_formed (t : Traversal) (c : Command) :
  well_formed t -> well_formed (exec t c).
Proof.
  intros [Hres Hpaths].
  destruct c as [id p | id | id ops cbs |]; unfold exec; simpl.
  - unfold registerResource. destruct (String.eqb id "__proto__"); [done|].
    split; [|exact Hpaths].
    intros id' fac. simpl.
    intros [[<- <-] | [_ H]]%lookup_insert_Some; [done | by apply Hres].
  - unfold setRootResource.
    destruct (checkResource t id); [|done..]. simpl.
    by destruct (js_get (resources t) id).
  - destruct (registerResourcePath t id ops cbs) as [t'|e|mem] eqn:Hreg;
      [|done..].
    apply registerResourcePath_Ok_inv in Hreg
      as (Hne & Hfn & n & p & m & ->).
    split; [exact Hres|].
    intros id' n' p' m' cbs'.
    destruct (decide ((id, n, p, m) = (id', n', p', m'))) as [[= <- <- <- <-]|Hk].
    + rewrite path_entry_store. by intros [= <-].
    + rewrite path_entry_store_other by done. apply Hpaths.
  - apply new_Traversal_well_formed.
Qed.

Lemma foldl_exec_well_formed (cmds : list Command) (t : Traversal) :
  well_formed t -> well_formed (foldl exec t cmds).
Proof.
  revert t. induction cmds as [|c cmds IH]; intros t Hwf; simpl; [done|].
  by apply IH, exec_well_formed.
Qed.

Lemma path_entry_intro (t : Traversal) (id n p m : string)
    (names : gmap string (gmap string (gmap string (list callback))))
    (parents : gmap string (gmap string (list callback)))
    (methods : gmap string (list callback)) (cbs : list callback) :
  paths t !! id = Some names -> names !! n = Some parents ->
  parents !! p = Some methods -> methods !! m = Some cbs ->
  path_entry t id n p m = Some cbs.
Proof.
  intros H1 H2 H3 H4. unfold path_entry.
  rewrite H1. simpl. rewrite H2. simpl. by rewrite H3.
Qed.

Lemma getResourcePath_entry (t : Traversal) (id : string) (ops : Ops)
    (cbs : list callback) :
  getResourcePath t id ops = Ok (Some cbs) ->
  exists n p m, path_entry t id n p m = Some cbs.
Proof.
  unfold getResourcePath, js_get. intros Hget.
  repeat case_match; simplify_eq;
    eexists _, _, _; eapply path_entry_intro; eauto.
Qed.

Lemma all_functions (cbs : list callback) :
  forallb is_function cbs = true -> exists hs, cbs = Fn <$> hs.
Proof.
  induction cbs as [|[h|v] cbs IH]; simpl.
  - by exists [].
  - intros H. destruct (IH H) as [hs ->]. by exists (h :: hs).
  - done.
Qed.

(** Whatever the registration calls were, a handler sequence that the
    lookup finds is a non-empty sequence of functions. *)
Lemma getResourcePath_handlers (cmds : list Command) (id : string)
    (ops : Ops) (cbs : list callback) :
  getResourcePath (foldl exec new_Traversal cmds) id ops = Ok (Some cbs) ->
  exists h hs, cbs = Fn <$> h :: hs.
Proof.
  intros (n & p & m & Hentry)%getResourcePath_entry.
  destruct (foldl_exec_well_formed cmds _ new_Traversal_well_formed)
    as [_ Hpaths].
  apply Hpaths in Hentry as [Hne [hs ->]%all_functions].
  destruct hs as [|h hs]; [done|]. by exists h, hs.
Qed.

(** ** The resource type registry *)

Lemma checkResource_unregistered (t : Traversal) (id : string) :
  resources t !! id = None -> inherited id = false ->
  checkResource t id = Throw (UnregisteredResource id).
Proof. intros H0 H1. unfold checkResource, js_get. by rewrite H0, H1. Qed.

Lemma checkResource_registered (t : Traversal) (id : string) :
  is_Some (resources t !! id) -> checkResource t id = Ok tt.
Proof. intros [f Hf]. unfold checkResource, js_get. by rewrite Hf. Qed.

Lemma get_checks_selected (t : Traversal) (this : Instance) (k id : string)
    (w : W) :
  resources t !! id = None -> inherited id = false ->
  static_child (proto this) k = Some id \/
  (static_child (proto this) k = None /\
   dynamic_child (proto this) k = Some id) ->
  get t this k w = (Throw (UnregisteredResource id), w).
Proof.
  intros Hid Hinh [Hs | [Hs Hd]]; unfold get, bind, lift; rewrite Hs;
    [|rewrite Hd]; by rewrite (checkResource_unregistered _ _ Hid Hinh).
Qed.

(** For an id that is not registered and does not name a member of
    [Object.prototype], [initResource] returns null and raises
    nothing, whereas every other place that reaches into [resources] by id
    ([checkResource], [setRootResource], [registerResourcePath] for the
    target and for the parent, [get] for a static and for a dynamic child)
    throws the "no registered resource" error. *)
Lemma initResource_unregistered (t : Traversal) (id : string) :
  resources t !! id = None -> inherited id = false ->
  (forall k p o w, initResource t id k p o w = (Ok None, w)) /\
  checkResource t id = Throw (UnregisteredResource id) /\
  setRootResource t id = Throw (UnregisteredResource id) /\
  (forall ops cbs, is_Some (root t) ->
     registerResourcePath t id ops cbs = Throw (UnregisteredResource id)) /\
  (forall target name m cbs,
     is_Some (root t) -> is_Some (resources t !! target) ->
     truthy_str id = true ->
     registerResourcePath t target
       {| ops_name := name; ops_parent := JStr id; ops_method := m |} cbs
     = Throw (UnregisteredResource id)) /\
  (forall this k w,
     static_child (proto this) k = Some id \/
     (static_child (proto this) k = None /\
      dynamic_child (proto this) k = Some id) ->
     get t this k w = (Throw (UnregisteredResource id), w)).
Proof.
  intros Hid Hinh.
  pose proof (checkResource_unregistered _ _ Hid Hinh) as Hc.
  split_and!.
  - intros k p o w. unfold initResource, js_get. by rewrite Hid, Hinh.
  - exact Hc.
  - unfold setRootResource. by rewrite Hc.
  - intros ops cbs [r Hr]. unfold registerResourcePath. by rewrite Hr, Hc.
  - intros target name m cbs [r Hr] Hf Hty.
    unfold registerResourcePath; simpl. rewrite Hr, Hty, Hc.
    by rewrite (checkResource_registered _ _ Hf).
  - intros this k w. by apply get_checks_selected.
Qed.

(** C9, where the code departs from it: an id that is not registered but
    names a member of [Object.prototype] is found by [this.resources[id]].
    For such an id [initResource] does not return null: it goes on to
    construct [Object] when the id is "constructor" and raises a TypeError
    for every other member; and the dereferences guarded by [checkResource]
    do not fail: [checkResource] returns, [setRootResource] goes on to make
    the member the root, and [get] for a child of that type goes on like
    [initResource]. *)
Theorem initResource_inherited_id (t : Traversal) (id : string) :
  resources t !! id = None -> inherited id = true ->
  (forall k p o w,
     initResource t id k p o w =
     (if String.eqb id "constructor" then Outside id else Throw TypeError, w)) /\
  checkResource t id = Ok tt /\
  setRootResource t id = Outside id /\
  (forall this k w,
     static_child (proto this) k = None ->
     dynamic_child (proto this) k = Some id ->
     get t this k w =
     (if String.eqb id "constructor" then Outside id else Throw TypeError, w)).
Proof.
  intros Hid Hinh.
  pose proof (js_get_inherited _ _ Hid Hinh) as Hget.
  assert (Hc : checkResource t id = Ok tt).
  { unfold checkResource. by rewrite Hget. }
  split_and!.
  - intros k p o w. unfold initResource. rewrite Hget. simpl.
    by destruct (String.eqb id "constructor").
  - exact Hc.
  - unfold setRootResource. by rewrite Hc, Hget.
  - intros this k w Hs Hd. unfold get, bind, lift. rewrite Hs, Hd, Hc, Hget.
    simpl. by destruct (String.eqb id "constructor").
Qed.

Lemma exec_keeps_root_unset (t : Traversal) (c : Command) :
  root t = None -> is_setRoot c = false -> root (exec t c) = None.
Proof.
  intros Hroot Hc. destruct c as [id p | id | id ops cbs |]; unfold exec;
    simpl; try done.
  - unfold registerResource. by destruct (String.eqb id "__proto__").
  - unfold registerResourcePath. by rewrite Hroot.
Qed.

(** C10: [clear] empties the registry and the path table and resets the
    root, so after it, and after any further calls other than
    [setRootResource], every [registerResourcePath] throws "root resource
    hasn't been set yet". *)
Theorem clear_resets_root (t : Traversal) (cmds : list Command) :
  forallb (fun c => negb (is_setRoot c)) cmds = true ->
  resources (clear t) = ∅ /\ paths (clear t) = ∅ /\ root (clear t) = None /\
  forall resourceId ops callbacks,
    registerResourcePath (foldl exec (clear t) cmds) resourceId ops callbacks
    = Throw RootNotSet.
Proof.
  intros Hcmds. split_and!; try reflexivity.
  assert (Hroot : root (foldl exec (clear t) cmds) = None).
  { assert (H0 : root (clear t) = None) by reflexivity.
    revert H0. generalize (clear t).
    induction cmds as [|c cmds IH]; intros t0 H0; simpl; [done|].
    simpl in Hcmds. apply andb_true_iff in Hcmds as [Hc Hcmds].
    apply IH; [done|]. apply exec_keeps_root_unset; [done|].
    by apply negb_true_iff. }
  intros resourceId ops callbacks. unfold registerResourcePath.
  by rewrite Hroot.
Qed.

(** ** Further properties of the path handler table *)

Lemma js_or_not_empty (v : jsval) (d : string) : d <> "" -> js_or v d <> "".
Proof.
  intros Hd. destruct v as [| |s]; simpl; try done.
  destruct (truthy_str s) eqn:Hs; [|done]. by apply truthy_str_true.
Qed.

Lemma js_or_truthy (v : jsval) (d : string) :
  truthy v = true -> js_or v d = prop_key v.
Proof. destruct v as [| |s]; simpl; try done. by intros ->. Qed.

Lemma js_or_falsy (v : jsval) (d : string) :
  truthy v = false -> js_or v d = d.
Proof. destruct v as [| |s]; simpl; try done. by intros ->. Qed.

Lemma checkResource_Ok_inv (t : Traversal) (id : string) :
  checkResource t id = Ok tt ->
  is_Some (resources t !! id) \/ inherited id = true.
Proof.
  unfold checkResource, js_get.
  destruct (resources t !! id); [by eauto|].
  by destruct (inherited id); [right|].
Qed.

(** Lines 139-151 stay within the own tables exactly when no level that is
    looked up is missing under an inherited name, and the method key is not
    [__proto__]. *)
Lemma reached_member_None (t : Traversal) (id n p m : string) :
  reached_member t id n p m = None ->
  let names := default ∅ (paths t !! id) in
  let parents := default ∅ (names !! n) in
  (paths t !! id = None -> inherited id = false) /\
  (names !! n = None -> inherited n = false) /\
  (parents !! p = None -> inherited p = false) /\
  m <> "__proto__".
Proof.
  unfold reached_member, js_get.
  destruct (paths t !! id) as [names|]; simpl.
  - destruct (names !! n) as [parents|]; simpl.
    + destruct (parents !! p) as [methods|]; simpl.
      * destruct (String.eqb_spec m "__proto__"); [done|]. by intros _.
      * destruct (inherited p); [done|].
        destruct (String.eqb_spec m "__proto__"); [done|]. by intros _.
    + destruct (inherited n); [done|]. rewrite lookup_empty.
      destruct (inherited p); [done|].
      destruct (String.eqb_spec m "__proto__"); [done|]. by intros _.
  - destruct (inherited id); [done|]. rewrite lookup_empty.
    destruct (inherited n); [done|]. simpl. rewrite lookup_empty.
    destruct (inherited p); [done|].
    destruct (String.eqb_spec m "__proto__"); [done|]. by intros _.
Qed.

(** What a successful [registerResourcePath] checked and stored. *)
Lemma registerResourcePath_Ok_store (t t' : Traversal) (id : string)
    (ops : Ops) (cbs : list callback) :
  registerResourcePath t id ops cbs = Ok t' ->
  let n := js_or (ops_name ops) "index" in
  let p := js_or (ops_parent ops) "all" in
  let m := method_key (ops_method ops) in
  is_Some (root t) /\ checkResource t id = Ok tt /\
  (truthy (ops_parent ops) = true ->
   checkResource t (prop_key (ops_parent ops)) = Ok tt) /\
  cbs <> [] /\ forallb is_function cbs = true /\
  reached_member t id n p m = None /\
  t' = store_own t id n p m cbs.
Proof.
  unfold registerResourcePath.
  destruct (root t) as [r|]; [|done].
  destruct (checkResource t id) as [[]| |] eqn:Hid; [|done..]. simpl.
  destruct (truthy (ops_parent ops)) eqn:Hp.
  - destruct (checkResource t (prop_key (ops_parent ops))) as [[]| |] eqn:Hpar;
      [|done..].
    simpl. destruct cbs as [|c cbs]; [done|].
    destruct (forallb is_function (c :: cbs)) eqn:Hfn; [|done].
    unfold store_path, method_key.
    destruct (reached_member _ _ _ _ _) eqn:Hreach; [done|].
    intros [= <-]. split_and!; eauto.
  - simpl. destruct cbs as [|c cbs]; [done|].
    destruct (forallb is_function (c :: cbs)) eqn:Hfn; [|done].
    unfold store_path, method_key.
    destruct (reached_member _ _ _ _ _) eqn:Hreach; [done|].
    intros [= <-]. split_and!; eauto. done.
Qed.

Lemma path_bucket_store (t : Traversal) (id n p m : string)
    (cbs : list callback) :
  path_bucket (store_own t id n p m cbs) id n p
  = Some (<[m := cbs]> (default ∅ (path_bucket t id n p))).
Proof.
  unfold path_bucket, store_own; simpl.
  rewrite lookup_insert_eq; simpl.
  rewrite lookup_insert_eq; simpl.
  rewrite lookup_insert_eq. f_equal. f_equal.
  destruct (paths t !! id) as [names|]; simpl; [|done].
  by destruct (names !! n) as [parents|].
Qed.

Lemma path_bucket_store_other (t : Traversal) (id n p m : string)
    (cbs : list callback) (q : string) :
  q <> p ->
  path_bucket (store_own t id n p m cbs) id n q = path_bucket t id n q.
Proof.
  intros Hq. unfold path_bucket, store_own; simpl.
  rewrite lookup_insert_eq; simpl.
  rewrite lookup_insert_eq; simpl.
  rewrite lookup_insert_ne by done.
  destruct (paths t !! id) as [names|]; simpl; [|done].
  by destruct (names !! n) as [parents|].
Qed.

Lemma default_bucket_lookup (t : Traversal) (id n p x : string) :
  default ∅ (path_bucket t id n p) !! x = path_entry t id n p x.
Proof.
  rewrite path_entry_bucket.
  by destruct (path_bucket t id n p) as [b|].
Qed.

(** The lookup for a string method, once the method table is known: the one
    under the lookup's parent, or the one under "all" when there is none and
    the parent key does not name a member of [Object.prototype]. *)
Lemma getResourcePath_in_bucket (t : Traversal) (id : string)
    (name parent : jsval) (m : string) (b : gmap string (list callback)) :
  match path_bucket t id (js_or name "index") (prop_key parent) with
  | Some b => Some b
  | None =>
      if inherited (prop_key parent) then None
      else path_bucket t id (js_or name "index") "all"
  end = Some b ->
  getResourcePath t id
    {| ops_name := name; ops_parent := parent; ops_method := JStr m |}
  = match js_get b (toLowerCase m) with
    | Own cbs => Ok (Some cbs)
    | Inherited member => Outside member
    | Absent => Ok (b !! "all")
    end.
Proof.
  unfold getResourcePath, path_bucket, js_get; simpl.
  destruct (paths t !! id) as [names|]; simpl; [|by destruct (inherited _)].
  destruct (names !! js_or name "index") as [parents|]; simpl;
    [|by destruct (inherited (prop_key parent))].
  destruct (parents !! prop_key parent) as [b'|]; simpl.
  - by intros [= ->].
  - destruct (inherited (prop_key parent)); [done|].
    destruct (parents !! "all") as [b'|]; [|done]. by intros [= ->].
Qed.

(** C4, where the code departs from it: once a method table is found, the
    lookup does not fall back to its "all" entry, nor return null, in two
    cases. When the lower-cased method is not registered in the table but
    names a member of [Object.prototype], [parent[method]] finds that
    member and the lookup returns it in place of a handler sequence; and
    when the lookup carries no method, [ops.method.toLowerCase()] raises a
    TypeError. *)
Theorem getResourcePath_misses_fallback (t : Traversal) (id : string)
    (name parent : jsval) (b : gmap string (list callback)) :
  path_bucket t id (js_or name "index") (prop_key parent) = Some b ->
  (forall m,
     b !! toLowerCase m = None -> inherited (toLowerCase m) = true ->
     getResourcePath t id
       {| ops_name := name; ops_parent := parent; ops_method := JStr m |}
     = Outside (toLowerCase m)) /\
  (forall method,
     (forall m, method <> JStr m) ->
     getResourcePath t id
       {| ops_name := name; ops_parent := parent; ops_method := method |}
     = Throw TypeError).
Proof.
  intros Hb. split.
  - intros m Hm Hinh.
    rewrite (getResourcePath_in_bucket _ _ _ _ _ b) by (by rewrite Hb).
    unfold js_get. by rewrite Hm, Hinh.
  - intros method Hmethod. revert Hb.
    unfold getResourcePath, path_bucket, js_get; simpl.
    destruct (paths t !! id) as [names|]; simpl; [|done].
    destruct (names !! js_or name "index") as [parents|]; simpl; [|done].
    intros ->. destruct method as [| |m]; try done. by destruct (Hmethod m).
Qed.

(** C5, where the code departs from it: a target type that is not
    registered but whose id names a member of [Object.prototype] passes
    [checkResource], so that with a root set, no parent and proper handlers
    no precondition error is raised; the call goes on to store the handlers
    on the member that [this.paths[resourceId]] finds. *)
Theorem registerResourcePath_inherited_target (t : Traversal) (id : string)
    (ops : Ops) (cbs : list callback) :
  is_Some (root t) ->
  resources t !! id = None -> paths t !! id = None ->
  inherited id = true ->
  truthy (ops_parent ops) = false ->
  cbs <> [] -> forallb is_function cbs = true ->
  checkResource t id = Ok tt /\
  registerResourcePath t id ops cbs = Outside id.
Proof.
  intros [r Hr] Hid Hpaths Hinh Hparent Hne Hfn.
  assert (Hc : checkResource t id = Ok tt).
  { unfold checkResource, js_get. by rewrite Hid, Hinh. }
  split; [exact Hc|].
  unfold registerResourcePath. rewrite Hr, Hc, Hparent. simpl.
  destruct cbs as [|c cbs]; [done|]. rewrite Hfn.
  unfold store_path, reached_member, js_get. by rewrite Hpaths, Hinh.
Qed.

(** X1: what [registerResourcePath] stored is what [getResourcePath] finds.
    A lookup finds the registered sequence when its parent is the registered
    one, or the registration named no parent, nothing is registered under
    the lookup's parent and that parent does not name a member of
    [Object.prototype]; and its method equals the registered one after
    lower-casing, or the registration named no method, the lookup's method
    is not registered under that parent and its lower-case form does not
    name a member of [Object.prototype]. *)
Theorem register_then_lookup (t t' : Traversal) (id : string) (ops : Ops)
    (cbs : list callback) (q : jsval) (m' : string) :
  registerResourcePath t id ops cbs = Ok t' ->
  let n := js_or (ops_name ops) "index" in
  let p := js_or (ops_parent ops) "all" in
  let k := method_key (ops_method ops) in
  prop_key q = p \/
  (p = "all" /\ path_bucket t id n (prop_key q) = None /\
   inherited (prop_key q) = false) ->
  toLowerCase m' = k \/
  (k = "all" /\ path_entry t id n p (toLowerCase m') = None /\
   inherited (toLowerCase m') = false) ->
  getResourcePath t' id
    {| ops_name := ops_name ops; ops_parent := q; ops_method := JStr m' |}
  = Ok (Some cbs).
Proof.
  intros Hreg n p k Hparent Hmethod.
  apply registerResourcePath_Ok_store in Hreg as (_ & _ & _ & _ & _ & _ & ->).
  fold n p k.
  rewrite (getResourcePath_in_bucket _ _ _ _ _
             (<[k := cbs]> (default ∅ (path_bucket t id n p)))).
  - unfold js_get.
    destruct Hmethod as [-> | (Hk & Hnone & Hinh)]; [by rewrite lookup_insert_eq|].
    destruct (decide (toLowerCase m' = k)) as [->|Hm];
      [by rewrite lookup_insert_eq|].
    rewrite lookup_insert_ne, default_bucket_lookup, Hnone, Hinh by done.
    rewrite <- Hk. by rewrite lookup_insert_eq.
  - fold n.
    destruct Hparent as [-> | (Hp & Hnone & Hinh)];
      [by rewrite path_bucket_store|].
    destruct (decide (prop_key q = p)) as [->|Hq];
      [by rewrite path_bucket_store|].
    rewrite path_bucket_store_other, Hnone, Hinh by done.
    rewrite <- Hp. apply path_bucket_store.
Qed.

(** X2: a [registerResourcePath] that returns, having stayed within the
    tables of the traversal object, changed the entry at its own 4-tuple
    key (overwriting what was stored there) and nothing else: every other
    entry, the registry and the root are as before. *)
Theorem registerResourcePath_frame (t t' : Traversal) (id : string)
    (ops : Ops) (cbs : list callback) :
  registerResourcePath t id ops cbs = Ok t' ->
  let key4 := (id, js_or (ops_name ops) "index",
               js_or (ops_parent ops) "all", method_key (ops_method ops)) in
  (forall id' n' p' m',
     path_entry t' id' n' p' m' =
     if decide (key4 = (id', n', p', m')) then Some cbs
     else path_entry t id' n' p' m') /\
  resources t' = resources t /\ root t' = root t.
Proof.
  intros Hreg key4.
  apply registerResourcePath_Ok_store in Hreg as (_ & _ & _ & _ & _ & _ & ->).
  split; [|done]. intros id' n' p' m'.
  destruct (decide (key4 = (id', n', p', m'))) as [[= <- <- <- <-]|Hne].
  - apply path_entry_store.
  - by apply path_entry_store_other.
Qed.

(** X3: for a resource type, a name and a parent none of which names a
    member of [Object.prototype], a lookup without a string method raises a
    TypeError exactly when it reaches a method table, that is when
    something is registered for the type and name under the lookup's parent
    or under "all"; otherwise it returns nothing. In particular an unknown
    resource type or name is no error. *)
Theorem getResourcePath_without_method (t : Traversal) (id : string)
    (name parent method : jsval) :
  (forall m, method <> JStr m) ->
  inherited id = false ->
  inherited (js_or name "index") = false ->
  inherited (prop_key parent) = false ->
  getResourcePath t id
    {| ops_name := name; ops_parent := parent; ops_method := method |}
  = match path_bucket t id (js_or name "index") (prop_key parent),
          path_bucket t id (js_or name "index") "all" with
    | None, None => Ok None
    | _, _ => Throw TypeError
    end.
Proof.
  intros Hm Hid Hn Hp. unfold getResourcePath, path_bucket, js_get; simpl.
  rewrite Hid, Hn, Hp.
  destruct (paths t !! id) as [names|]; simpl; [|done].
  destruct (names !! js_or name "index") as [parents|]; simpl; [|done].
  destruct (parents !! prop_key parent) as [b|]; simpl.
  - destruct method as [| |m]; try done. by destruct (Hm m).
  - destruct (parents !! "all") as [b|]; [|done].
    destruct method as [| |m]; try done. by destruct (Hm m).
Qed.

Lemma new_Traversal_consistent :
  paths_consistent (@new_Traversal W Opt Handler).
Proof.
  intros id names H. unfold new_Traversal in H.
  cbn [paths] in H. by rewrite lookup_empty in H.
Qed.

Lemma store_own_consistent (t : Traversal) (id n p m : string)
    (cbs : list callback) :
  paths_consistent t ->
  checkResource t id = Ok tt ->
  p = "all" \/ checkResource t p = Ok tt ->
  n <> "" -> p <> "" ->
  reached_member t id n p m = None ->
  paths_consistent (store_own t id n p m cbs).
Proof.
  intros Hcons Hid Hpar Hn Hp Hreach.
  destruct (reached_member_None _ _ _ _ _ Hreach) as (L1 & L2 & L3 & _).
  assert (Hinh_id : inherited id = false).
  { destruct (paths t !! id) as [names|] eqn:Hnames; [|by apply L1].
    by destruct (Hcons _ _ Hnames) as (_ & ? & _). }
  assert (Hinh_n : inherited n = false).
  { destruct (paths t !! id) as [names|] eqn:Hnames; simpl in *;
      [|apply L2, lookup_empty].
    destruct (names !! n) as [parents|] eqn:Hparents; [|by apply L2].
    destruct (Hcons _ _ Hnames) as (_ & _ & Hlev).
    by destruct (Hlev _ _ Hparents) as (_ & ? & _). }
  assert (Hinh_p : inherited p = false).
  { destruct (paths t !! id) as [names|] eqn:Hnames; simpl in *;
      [|apply L3, lookup_empty].
    destruct (names !! n) as [parents|] eqn:Hparents; simpl in *;
      [|apply L3, lookup_empty].
    destruct (parents !! p) as [methods|] eqn:Hmethods; [|by apply L3].
    destruct (Hcons _ _ Hnames) as (_ & _ & Hlev).
    destruct (Hlev _ _ Hparents) as (_ & _ & Hlev').
    by destruct (Hlev' _ _ Hmethods) as (_ & _ & ?). }
  assert (Hreg_id : is_Some (resources t !! id)).
  { destruct (checkResource_Ok_inv _ _ Hid); [done|congruence]. }
  assert (Hreg_p : p = "all" \/ is_Some (resources t !! p)).
  { destruct Hpar as [->|Hpar]; [by left|].
    destruct (checkResource_Ok_inv _ _ Hpar); [by right|congruence]. }
  intros id' names'. unfold store_own. cbn [paths resources].
  intros [[<- <-] | [Hne Hold]]%lookup_insert_Some; [|by apply Hcons].
  split; [done|]. split; [done|].
  intros n' parents'.
  intros [[<- <-] | [Hne Hold]]%lookup_insert_Some.
  - split; [done|]. split; [done|].
    intros p' methods'.
    intros [[<- <-] | [Hne Hold]]%lookup_insert_Some; [done|].
    destruct (paths t !! id) as [names|] eqn:Hnames; simpl in Hold;
      [|by rewrite lookup_empty in Hold].
    destruct (names !! n) as [parents|] eqn:Hparents; simpl in Hold;
      [|by rewrite lookup_empty in Hold].
    destruct (Hcons _ _ Hnames) as (_ & _ & Hlev).
    destruct (Hlev _ _ Hparents) as (_ & _ & Hlev').
    by apply (Hlev' _ methods').
  - destruct (paths t !! id) as [names|] eqn:Hnames; simpl in Hold;
      [|by rewrite lookup_empty in Hold].
    destruct (Hcons _ _ Hnames) as (_ & _ & Hlev).
    by apply Hlev.
Qed.

Lemma exec_consistent (t : Traversal) (c : Command) :
  paths_consistent t -> paths_consistent (exec t c).
Proof.
  intros Hcons.
  destruct c as [id p | id | id ops cbs |]; unfold exec; simpl.
  - unfold registerResource. destruct (String.eqb id "__proto__"); [done|].
    assert (Hgrow : forall x, is_Some (resources t !! x) ->
                      is_Some (<[id := mkFactory id
                                   (mkClass (p_children p) (p_child p)
                                      (default default_childValidate
                                         (p_childValidate p)))
                                   (default default_init (p_init p))]>
                                 (resources t) !! x)).
    { intros x Hx. rewrite lookup_insert_is_Some.
      destruct (decide (id = x)) as [->|]; [by left | by right]. }
    intros id' names Hnames. cbn [paths resources] in *.
    destruct (Hcons _ _ Hnames) as (Hid & Hinh & Hlev).
    split; [by apply Hgrow|]. split; [done|].
    intros n parents Hparents.
    destruct (Hlev _ _ Hparents) as (Hn & Hinh_n & Hlev').
    split; [done|]. split; [done|].
    intros p' methods Hmethods.
    destruct (Hlev' _ _ Hmethods) as (Hp & Hrest).
    split; [|done].
    destruct Hp as [->|Hp]; [by left | right; by apply Hgrow].
  - unfold setRootResource.
    destruct (checkResource t id); [|done..]. simpl.
    by destruct (js_get (resources t) id).
  - destruct (registerResourcePath t id ops cbs) as [t'|e|mem] eqn:Hreg;
      [|done..].
    apply registerResourcePath_Ok_store in Hreg
      as (_ & Hid & Hparent & _ & _ & Hreach & ->).
    apply store_own_consistent; try done; try (by apply js_or_not_empty).
    destruct (truthy (ops_parent ops)) eqn:Hp.
    + right. rewrite js_or_truthy by done. by apply Hparent.
    + left. by apply js_or_falsy.
  - apply new_Traversal_consistent.
Qed.

(** X4: as long as no call goes on with a built-in object, the path table
    stays consistent with the registry however the registration API is
    called, calls that throw included: every table belongs to a registered
    resource type, under a parent key that is "all" or a registered type,
    with non-empty name and parent keys none of which names a member of
    [Object.prototype]; every constructor is registered under its own id,
    and every stored sequence is a non-empty array of functions. *)
Theorem registration_keeps_paths_consistent (cmds : list Command) :
  stays_inside (@new_Traversal W Opt Handler) cmds = true ->
  let t := foldl exec (@new_Traversal W Opt Handler) cmds in
  paths_consistent t /\ well_formed t.
Proof.
  intros _ t. split; [|apply foldl_exec_well_formed, new_Traversal_well_formed].
  unfold t. generalize new_Traversal_consistent.
  generalize (@new_Traversal W Opt Handler).
  induction cmds as [|c cmds IH]; intros t0 H0; simpl; [done|].
  by apply IH, exec_consistent.
Qed.


(** ** Further properties of the registry *)

Lemma exec_root (t : Traversal) (c : Command) :
  is_setRoot c = false -> is_clear c = false -> root (exec t c) = root t.
Proof.
  intros Hs Hc. destruct c as [id p | id | id ops cbs |]; unfold exec; simpl;
    try done.
  - unfold registerResource. by destruct (String.eqb id "__proto__").
  - destruct (registerResourcePath t id ops cbs) as [t'|e|mem] eqn:Hreg;
      [|done..].
    by apply registerResourcePath_Ok_inv in Hreg as (_ & _ & n & p & m & ->).
Qed.

(** X5: the root constructor is the one registered when [setRootResource]
    was called, and only [setRootResource] and [clear] change it: whatever
    is registered afterwards, also under the same id, the root stays the
    constructor captured then. *)
Theorem root_is_captured (t t1 : Traversal) (id : string)
    (cmds : list Command) :
  setRootResource t id = Ok t1 ->
  forallb (fun c => negb (is_setRoot c) && negb (is_clear c)) cmds = true ->
  is_Some (resources t !! id) /\
  resources t1 = resources t /\ paths t1 = paths t /\
  root (foldl exec t1 cmds) = resources t !! id.
Proof.
  unfold setRootResource, checkResource, js_get.
  destruct (resources t !! id) as [fac|] eqn:Hid;
    [|by destruct (inherited id)]. simpl.
  intros [= <-] Hcmds. split_and!; try done.
  transitivity (root (mkTraversal (resources t) (paths t) (Some fac)));
    [|done].
  generalize (mkTraversal (resources t) (paths t) (Some fac)).
  induction cmds as [|c cmds IH]; intros t0; simpl; [done|].
  simpl in Hcmds. apply andb_true_iff in Hcmds as [Hc Hcmds].
  apply andb_true_iff in Hc as [Hs Hcl].
  rewrite (IH Hcmds). apply exec_root; by apply negb_true_iff.
Qed.

Lemma exec_keeps_registered (t : Traversal) (c : Command) (id : string) :
  is_clear c = false ->
  is_Some (resources t !! id) -> is_Some (resources (exec t c) !! id).
Proof.
  intros Hc Hid. destruct c as [id' p | id' | id' ops cbs |]; unfold exec;
    simpl; try done.
  - unfold registerResource. destruct (String.eqb id' "__proto__"); [done|].
    cbn [resources]. rewrite lookup_insert_is_Some.
    destruct (decide (id' = id)) as [->|]; [by left | by right].
  - unfold setRootResource.
    destruct (checkResource t id'); [|done..]. simpl.
    by destruct (js_get (resources t) id').
  - destruct (registerResourcePath t id' ops cbs) as [t'|e|mem] eqn:Hreg;
      [|done..].
    by apply registerResourcePath_Ok_inv in Hreg as (_ & _ & n & p & m & ->).
Qed.

Lemma exec_keeps_entry (t : Traversal) (c : Command) (id n p m : string) :
  is_clear c = false ->
  is_Some (path_entry t id n p m) -> is_Some (path_entry (exec t c) id n p m).
Proof.
  intros Hc He. destruct c as [id' p' | id' | id' ops cbs |]; unfold exec;
    simpl; try done.
  - unfold registerResource. by destruct (String.eqb id' "__proto__").
  - unfold setRootResource.
    destruct (checkResource t id'); [|done..]. simpl.
    by destruct (js_get (resources t) id').
  - destruct (registerResourcePath t id' ops cbs) as [t'|e|mem] eqn:Hreg;
      [|done..].
    apply registerResourcePath_Ok_inv in Hreg as (_ & _ & n' & q & m' & ->).
    destruct (decide ((id', n', q, m') = (id, n, p, m)))
      as [[= <- <- <- <-]|Hk].
    + rewrite path_entry_store. eauto.
    + by rewrite path_entry_store_other.
Qed.

(** X6: nothing but [clear] removes a registration: a registered resource
    type stays registered and a 4-tuple key that has a handler sequence
    keeps one (possibly overwritten) through any calls of
    [registerResource], [setRootResource] and [registerResourcePath],
    failed ones included. *)
Theorem only_clear_unregisters (t : Traversal) (cmds : list Command) :
  forallb (fun c => negb (is_clear c)) cmds = true ->
  (forall id, is_Some (resources t !! id) ->
     is_Some (resources (foldl exec t cmds) !! id)) /\
  (forall id n p m, is_Some (path_entry t id n p m) ->
     is_Some (path_entry (foldl exec t cmds) id n p m)).
Proof.
  revert t. induction cmds as [|c cmds IH]; intros t Hcmds; simpl; [done|].
  simpl in Hcmds. apply andb_true_iff in Hcmds as [Hc Hcmds].
  apply negb_true_iff in Hc. destruct (IH (exec t c) Hcmds) as [IHr IHp].
  split.
  - intros id Hid. by apply IHr, exec_keeps_registered.
  - intros id n p m He. by apply IHp, exec_keeps_entry.
Qed.


(** ** Further properties of traversal and URL building *)

(** X7: on an instance that has a parent, [traverseTo] never raises; it
    returns the nearest ancestor of the requested type, and null exactly
    when no ancestor has that type. *)
Theorem traverseTo_nearest_ancestor (this p : Instance) (resourceId : string) :
  parent this = Some p ->
  (forall a,
     traverseTo this resourceId = Ok (Some a) <->
     exists nearer further,
       ancestors this = (nearer ++ a :: further)%list /\
       resource a = resourceId /\
       Forall (fun b => resource b <> resourceId) nearer) /\
  (traverseTo this resourceId = Ok None <->
   Forall (fun b => resource b <> resourceId) (ancestors this)).
Proof.
  intros Hp. rewrite (traverseTo_with_parent _ _ _ Hp).
  generalize (ancestors this). intros l.
  assert (Hfind : forall l : list Instance,
    (forall a,
       List.find (fun a => String.eqb (resource a) resourceId) l = Some a <->
       exists nearer further,
         l = (nearer ++ a :: further)%list /\ resource a = resourceId /\
         Forall (fun b => resource b <> resourceId) nearer) /\
    (List.find (fun a => String.eqb (resource a) resourceId) l = None <->
     Forall (fun b => resource b <> resourceId) l)).
  { clear. induction l as [|x l [IHs IHn]]; simpl.
    - split; [|split; [constructor | done]].
      intros a. split; [done|]. intros (nearer & further & Heq & _).
      by destruct nearer.
    - destruct (String.eqb_spec (resource x) resourceId) as [Hx|Hx].
      + split.
        * intros a. split.
          -- intros [= <-]. by exists [], l.
          -- intros (nearer & further & Heq & Ha & Hall).
             destruct nearer as [|y nearer]; simpl in Heq.
             ++ by injection Heq as ->.
             ++ injection Heq as -> _. by apply Forall_cons in Hall as [? _].
        * split; [done|]. by intros [? _]%Forall_cons.
      + split.
        * intros a. rewrite IHs. split.
          -- intros (nearer & further & -> & Ha & Hall).
             exists (x :: nearer), further. split_and!; try done.
             by constructor.
          -- intros (nearer & further & Heq & Ha & Hall).
             destruct nearer as [|y nearer]; simpl in Heq.
             ++ injection Heq as -> _. done.
             ++ injection Heq as -> ->. apply Forall_cons in Hall as [_ Hall].
                by exists nearer, further.
        * rewrite IHn. split; [by constructor | by intros [_ ?]%Forall_cons]. }
  destruct (Hfind l) as [Hs Hn]. split.
  - intros a. rewrite <- Hs. split; [by intros [= ->] | by intros ->].
  - rewrite <- Hn. split; [by intros [= ->] | by intros ->].
Qed.

(** X8: without a root resource type (before [setRootResource], or after
    [clear]) [buildChain] raises a TypeError on every request, and so does
    the middleware, before anything else has happened. *)
Theorem no_root_no_request (t : Traversal) (req : Req) (res : Res) (w : W) :
  root t = None ->
  buildChain t req w = (Throw TypeError, w) /\
  middleware t req res w = (Throw TypeError, w) /\
  buildChain (clear t) req w = (Throw TypeError, w).
Proof.
  intros Hroot. unfold middleware, bind, buildChain. rewrite Hroot. done.
Qed.

Lemma split_app_slash (a b : string) :
  split "/" (String.append a (String "/" b))
  = (split "/" a ++ split "/" b)%list.
Proof.
  induction a as [|c a IH]; simpl; [done|].
  destruct (Ascii.eqb c "/"); [by rewrite IH|].
  rewrite IH. pose proof (split_not_nil a) as Hne.
  by destruct (split "/" a).
Qed.

Lemma segments_nil_iff (u : string) :
  segments u = [] <-> only_slashes u = true.
Proof.
  unfold segments. induction u as [|c u IH]; simpl; [done|].
  destruct (Ascii.eqb c "/") eqn:Hc; simpl; [exact IH|].
  split; [|done].
  pose proof (split_not_nil u) as Hne.
  destruct (split "/" u) as [|x xs]; [done|]. simpl. done.
Qed.

(** X9: only the non-empty pieces between slashes count. The segments of
    [a/b] are those of [a] followed by those of [b], so leading, trailing
    and repeated slashes change nothing; and a path has no segment exactly
    when it consists of slashes only (the empty path included), in which
    case [buildChain] returns the root instance and leaves the request as it
    was. *)
Theorem segments_normalise (t : Traversal) (fac : Factory) (req : Req) (w : W) :
  (forall a b,
     segments (String.append a (String "/" b))
     = (segments a ++ segments b)%list) /\
  (forall u, segments u = [] <-> only_slashes u = true) /\
  (root t = Some fac -> only_slashes (url req) = true ->
   buildChain t req w =
   match new_ fac JUndefined None None w with
   | (Ok root_inst, w') => (Ok (root_inst, req), w')
   | (Throw e, w') => (Throw e, w')
   | (Outside m, w') => (Outside m, w')
   end).
Proof.
  split_and!.
  - intros a b. unfold segments. rewrite split_app_slash.
    apply List.filter_app.
  - apply segments_nil_iff.
  - intros Hroot Hurl. apply segments_nil_iff in Hurl.
    unfold buildChain, bind. rewrite Hroot, Hurl.
    by destruct (new_ fac JUndefined None None w) as [[r|e|m] w'].
Qed.

Lemma _getKeyAndParent_keys_of (r : Instance) :
  forall parts, _getKeyAndParent r parts = (keys_of r ++ parts)%list.
Proof.
  induction r as [rid c k o | rid c k p o IH] using Instance_parent_ind;
    intros parts; simpl.
  - by destruct (truthy k).
  - rewrite IH, <- app_assoc. by destruct (truthy k).
Qed.

(** X10: [buildResourceUrl] is '/' followed by the truthy keys on the
    parent chain, root first, and then the extra path name when that is
    truthy, all joined by '/'. Instances with an undefined or empty key
    (such as the root) and an undefined, null or empty path name add
    nothing. *)
Theorem buildResourceUrl_keys (r : Instance) (pathname : jsval) :
  buildResourceUrl r pathname =
  String.append "/"
    (join "/" (keys_of r ++ if truthy pathname then [prop_key pathname]
                            else [])%list).
Proof.
  unfold buildResourceUrl. by rewrite _getKeyAndParent_keys_of.
Qed.

Lemma walk_keys_of (t : Traversal) (r leaf : Instance) (segs : list string)
    (w w' : W) :
  (forall id fac, resources t !! id = Some fac -> keeps_links fac) ->
  Forall (fun s => truthy_str s = true) segs ->
  walk t r segs w leaf w' ->
  keys_of leaf = (keys_of r ++ segs)%list /\
  (segs <> [] -> is_Some (parent leaf)) /\
  (segs = [] -> leaf = r).
Proof.
  intros Hkeep Hall Hwalk.
  induction Hwalk as [r w | r seg segs w child w1 leaf w2 Hget Hwalk IH].
  - by rewrite app_nil_r.
  - apply Forall_cons in Hall as [Hseg Hall].
    destruct (IH Hall) as (Hkeys & Hpar & Hleaf).
    apply get_Some_inv in Hget as (id & fac & Hfac & Hinit).
    apply (Hkeep _ _ Hfac) in Hinit as [Hkey Hparent].
    simpl in Hkey, Hparent.
    assert (Hchild : keys_of child = (keys_of r ++ [seg])%list).
    { destruct child as [rid c k p o]. simpl in Hkey, Hparent. subst k p.
      simpl. by rewrite Hseg. }
    split_and!.
    + by rewrite Hkeys, Hchild, <- app_assoc.
    + intros _. destruct segs as [|s segs]; [|by apply Hpar].
      rewrite (Hleaf eq_refl), Hparent. eauto.
    + done.
Qed.

Lemma buildChain_Ok_inv (t : Traversal) (req req' : Req) (leaf : Instance)
    (w w' : W) :
  buildChain t req w = (Ok (leaf, req'), w') ->
  exists fac root_inst w0 (matched unresolved : list string) (wl : W),
    root t = Some fac /\
    new_ fac JUndefined None None w = (Ok root_inst, w0) /\
    segments (url req) = (matched ++ unresolved)%list /\
    walk t root_inst matched w0 leaf wl /\
    req' = record_unresolved req unresolved.
Proof.
  unfold buildChain, bind.
  destruct (root t) as [fac|]; [|done].
  destruct (new_ fac JUndefined None None w) as [[root_inst|e|m] w0] eqn:Hnew;
    [|done..].
  rewrite (_build_greedy _ _ _ (segments_truthy _)).
  intros (matched & unresolved & wl & Heq & Hwalk & Hreq & _).
  by exists fac, root_inst, w0, matched, unresolved, wl.
Qed.

(** X11: where [init] hooks keep [key] and [parent], the chain that
    [buildChain] returns spells out the consumed part of the path: the keys
    from the root to the leaf are the consumed segments, followed by the
    recorded unresolved ones they are all the segments of the path, and
    [buildResourceUrl] of the leaf with the recorded [pathname] is the
    normalised path up to and including the first unresolved segment. *)
Theorem buildChain_keys (t : Traversal) (fac : Factory) (req req' : Req)
    (leaf : Instance) (w w' : W) :
  root t = Some fac ->
  keeps_links fac ->
  (forall id f, resources t !! id = Some f -> keeps_links f) ->
  pathname req = JUndefined ->
  buildChain t req w = (Ok (leaf, req'), w') ->
  (keys_of leaf ++ unresolved_subpath req')%list = segments (url req) /\
  buildResourceUrl leaf (pathname req') =
  String.append "/"
    (join "/" (keys_of leaf ++ match unresolved_subpath req' with
                               | [] => []
                               | seg :: _ => [seg]
                               end)%list).
Proof.
  intros Hroot Hkroot Hkeep Hpn Hbuild.
  apply buildChain_Ok_inv in Hbuild
    as (fac' & root_inst & w0 & matched & unresolved & wl &
        Hroot' & Hnew & Hsegs & Hwalk & ->).
  assert (fac' = fac) as -> by congruence.
  assert (Hmatched : Forall (fun s => truthy_str s = true) matched).
  { pose proof (segments_truthy (url req)) as Hall.
    rewrite Hsegs in Hall. by apply Forall_app in Hall as [? _]. }
  assert (Hunres : Forall (fun s => truthy_str s = true) unresolved).
  { pose proof (segments_truthy (url req)) as Hall.
    rewrite Hsegs in Hall. by apply Forall_app in Hall as [_ ?]. }
  destruct (walk_keys_of _ _ _ _ _ _ Hkeep Hmatched Hwalk) as (Hkeys & _ & _).
  apply Hkroot in Hnew as [Hkey Hparent]. simpl in Hkey, Hparent.
  assert (Hrootkeys : keys_of root_inst = []).
  { destruct root_inst as [rid c k p o]. simpl in Hkey, Hparent. by subst k p. }
  rewrite Hrootkeys in Hkeys. simpl in Hkeys.
  unfold buildResourceUrl. rewrite _getKeyAndParent_keys_of, Hkeys, Hsegs.
  destruct unresolved as [|seg rest]; simpl.
  - unfold unresolved_subpath. rewrite Hpn. done.
  - apply Forall_cons in Hunres as [Hseg _]. by rewrite Hseg.
Qed.

(** X12: where [init] hooks keep [key] and [parent], [traverseTo] on the
    leaf that [buildChain] returns raises exactly when no segment was
    consumed, that is when the leaf is the root instance. *)
Theorem traverseTo_on_leaf (t : Traversal) (fac : Factory) (req req' : Req)
    (leaf : Instance) (w w' : W) (resourceId : string) :
  root t = Some fac ->
  keeps_links fac ->
  (forall id f, resources t !! id = Some f -> keeps_links f) ->
  buildChain t req w = (Ok (leaf, req'), w') ->
  traverseTo leaf resourceId = Throw TypeError <-> keys_of leaf = [].
Proof.
  intros Hroot Hkroot Hkeep Hbuild.
  apply buildChain_Ok_inv in Hbuild
    as (fac' & root_inst & w0 & matched & unresolved & wl &
        Hroot' & Hnew & Hsegs & Hwalk & ->).
  assert (fac' = fac) as -> by congruence.
  assert (Hmatched : Forall (fun s => truthy_str s = true) matched).
  { pose proof (segments_truthy (url req)) as Hall.
    rewrite Hsegs in Hall. by apply Forall_app in Hall as [? _]. }
  destruct (walk_keys_of _ _ _ _ _ _ Hkeep Hmatched Hwalk)
    as (Hkeys & Hpar & Hleaf).
  apply Hkroot in Hnew as [Hkey Hparent]. simpl in Hkey, Hparent.
  assert (Hrootkeys : keys_of root_inst = [] /\ parent root_inst = None).
  { destruct root_inst as [rid c k p o]. simpl in Hkey, Hparent. by subst k p. }
  destruct Hrootkeys as [Hrk Hrp]. rewrite Hrk in Hkeys. simpl in Hkeys.
  rewrite Hkeys. unfold traverseTo, _traverseTo.
  destruct matched as [|seg matched].
  - rewrite (Hleaf eq_refl), Hrp. done.
  - destruct (Hpar ltac:(done)) as [p ->]. done.
Qed.


(** ** Further properties of the dispatcher *)

Lemma _callback_at (req : Req) (res : Res) (hs : list Handler) (j : nat) :
  _callback (mkClosure (Fn <$> hs) req res (Z.of_nat j - 1))
  = (mkClosure (Fn <$> hs) req res (Z.of_nat j), call_at req res hs j).
Proof.
  unfold _callback, call_at, array_get. simpl.
  replace (Z.of_nat j - 1 + 1) with (Z.of_nat j) by lia.
  destruct (Z.leb_spec 0 (Z.of_nat j)); [|lia].
  rewrite Nat2Z.id, list_lookup_fmap, length_fmap.
  destruct (hs !! j) as [h|]; simpl; [|done].
  do 3 f_equal. destruct (List.length hs) as [|l].
  - destruct (Z.eqb_spec (Z.of_nat j + 1) (Z.of_nat 0)); [lia|done].
  - destruct (Z.eqb_spec (Z.of_nat j + 1) (Z.of_nat (S l)));
      destruct (Nat.eqb_spec j l); try done; lia.
Qed.

(** X13: the continuation [_callback] hands the handlers out in
    registration order, one per call, whoever calls it and however often:
    the call number [j] (from 0) invokes handler [j], with [next] as its
    continuation when it is the last and [_callback] otherwise; every call
    after the last handler was invoked raises a TypeError. *)
Theorem _callback_in_order (req : Req) (res : Res) (hs : list Handler)
    (n : nat) :
  call_n n (mkClosure (Fn <$> hs) req res (-1))
  = call_at req res hs <$> seq 0 n /\
  (forall j, (List.length hs <= j)%nat -> call_at req res hs j = Throw TypeError) /\
  (forall j h, hs !! j = Some h ->
     call_at req res hs j =
     Ok (Invoke h req res
           (if (S j =? List.length hs)%nat then K_next else K_callback))).
Proof.
  split_and!.
  - change (-1) with (Z.of_nat 0 - 1). generalize 0%nat.
    induction n as [|n IH]; intros j; [done|].
    simpl call_n. rewrite _callback_at.
    replace (Z.of_nat j) with (Z.of_nat (S j) - 1) by lia.
    by rewrite IH.
  - intros j Hj. unfold call_at. by rewrite lookup_ge_None_2.
  - intros j h Hj. unfold call_at. by rewrite Hj.
Qed.


(** X15: the dispatcher adds no failure of its own. When [buildChain]
    raises, the middleware raises the same error, and so it does when the
    lookup for the leaf raises. When both return, then for a table built
    through the registration API, no call of which went on with a built-in
    object, the middleware returns normally, with the leaf and the URL
    builder attached to the request: having called [next] when nothing was
    found, and otherwise the first handler of the sequence found, which is a
    non-empty sequence of functions. *)
Theorem middleware_adds_no_failure (cmds : list Command) (req : Req)
    (res : Res) (w : W) :
  stays_inside (@new_Traversal W Opt Handler) cmds = true ->
  let t := foldl exec (@new_Traversal W Opt Handler) cmds in
  (forall e w1,
     buildChain t req w = (Throw e, w1) ->
     middleware t req res w = (Throw e, w1)) /\
  (forall leaf req1 w1 e,
     buildChain t req w = (Ok (leaf, req1), w1) ->
     getResourcePath t (resource leaf) (leaf_ops req1 leaf) = Throw e ->
     middleware t req res w = (Throw e, w1)) /\
  (forall leaf req1 w1 found,
     buildChain t req w = (Ok (leaf, req1), w1) ->
     getResourcePath t (resource leaf) (leaf_ops req1 leaf) = Ok found ->
     (found = None /\
      middleware t req res w
      = (Ok (attach req1 leaf, None, InvokeNext), w1)) \/
     exists h hs,
       found = Some (Fn <$> h :: hs) /\
       middleware t req res w
       = (Ok (attach req1 leaf,
              Some (mkClosure (Fn <$> h :: hs) (attach req1 leaf) res 0),
              Invoke h (attach req1 leaf) res
                (match hs with [] => K_next | _ => K_callback end)), w1)).
Proof.
  intros _ t.
  assert (Hmid : forall leaf req1 w1,
    buildChain t req w = (Ok (leaf, req1), w1) ->
    middleware t req res w =
    match getResourcePath t (resource leaf) (leaf_ops req1 leaf) with
    | Ok (Some ((_ :: _) as callbacks)) =>
        match _callback (mkClosure callbacks (attach req1 leaf) res (-1)) with
        | (c', Ok e) => (Ok (attach req1 leaf, Some c', e), w1)
        | (_, Throw e) => (Throw e, w1)
        | (_, Outside m) => (Outside m, w1)
        end
    | Ok _ => (Ok (attach req1 leaf, None, InvokeNext), w1)
    | Throw e => (Throw e, w1)
    | Outside m => (Outside m, w1)
    end).
  { intros leaf req1 w1 Hbuild. unfold middleware, bind, lift. rewrite Hbuild.
    cbn [fst snd]. fold (attach req1 leaf).
    change {| ops_name := pathname (attach req1 leaf);
              ops_parent := match parent leaf with
                            | Some p => JStr (resource p)
                            | None => JNull
                            end;
              ops_method := method (attach req1 leaf) |}
      with (leaf_ops req1 leaf).
    destruct (getResourcePath t (resource leaf) (leaf_ops req1 leaf))
      as [[[|c cbs]|]| |]; try done.
    by destruct (_callback _) as [c' [e|e|m]]. }
  split_and!.
  - intros e w1 Hbuild. unfold middleware, bind. by rewrite Hbuild.
  - intros leaf req1 w1 e Hbuild Hfound.
    by rewrite (Hmid _ _ _ Hbuild), Hfound.
  - intros leaf req1 w1 found Hbuild Hfound.
    rewrite (Hmid _ _ _ Hbuild), Hfound.
    destruct found as [cbs|]; [|by left].
    destruct (getResourcePath_handlers cmds _ _ _ Hfound) as (h & hs & ->).
    right. exists h, hs. split; [done|].
    rewrite fmap_cons.
    pose proof (_callback_at (attach req1 leaf) res (h :: hs) 0) as Hstep.
    change (Z.of_nat 0 - 1) with (-1) in Hstep.
    rewrite fmap_cons in Hstep. rewrite Hstep.
    unfold call_at. simpl. do 4 f_equal.
    destruct hs as [|h' hs]; [done|]. simpl.
    by destruct (List.length hs).
Qed.


(** ** The inherited hooks *)

(** X16: a resource type registered without [init] and [childValidate]
    inherits the stubs of [Resource.prototype]. Its instances are created
    without any effect, carrying the given key, parent and options; and
    such an instance with a dynamic child type and no [children] resolves
    every non-empty segment to that type, and the empty segment to
    nothing. *)
Theorem inherited_hooks (t t' : Traversal) (id : string)
    (static : option (gmap string string)) (dynamic : jsval)
    (k : jsval) (p : option Instance) (o : option Opt) (w : W) :
  registerResource t id (mkProto static dynamic None None) = Ok t' ->
  let inst :=
    mkInstance id (mkClass static dynamic default_childValidate) k p o in
  initResource t' id k p o w = (Ok (Some inst), w) /\
  (forall (t2 : Traversal) (seg c : string),
     static = None -> dynamic = JStr c -> c <> "" ->
     get t2 inst seg w =
     if truthy_str seg then resolves_to t2 c inst seg w else (Ok None, w)).
Proof.
  intros Hreg inst. unfold registerResource in Hreg.
  destruct (String.eqb id "__proto__"); [done|].
  injection Hreg as <-. split.
  - unfold initResource, js_get. cbn [resources].
    by rewrite lookup_insert_eq.
  - intros t2 seg c -> -> Hc. apply truthy_str_true in Hc.
    destruct (truthy_str seg) eqn:Hseg.
    + apply get_selected. right. split; [done|].
      unfold dynamic_child. simpl. unfold default_childValidate.
      by rewrite Hc, Hseg.
    + apply get_unselected; [done|].
      unfold dynamic_child. simpl. unfold default_childValidate.
      by rewrite Hc, Hseg.
Qed.


End Properties.

(** * The worked configuration, checked *)

Import Scenario.

Lemma counting_init_keeps_links (fac : @Factory nat unit) :
  f_init fac = counting_init -> keeps_links fac.
Proof.
  intros Hinit i w i' w'. rewrite Hinit. unfold counting_init.
  by intros [= <- <-].
Qed.

Lemma traversal_resources :
  resources traversal =
  <["user" := user_factory]>
    (<["users" := users_factory]> (<["root" := root_factory]> ∅)).
Proof. vm_compute. reflexivity. Qed.

Lemma traversal_keeps_links (id : string) (f : @Factory nat unit) :
  resources traversal !! id = Some f -> keeps_links f.
Proof.
  rewrite traversal_resources. intros H.
  apply counting_init_keeps_links.
  apply lookup_insert_Some in H as [[_ <-] | [_ H]]; [done|].
  apply lookup_insert_Some in H as [[_ <-] | [_ H]]; [done|].
  apply lookup_insert_Some in H as [[_ <-] | [_ H]]; [done|].
  by rewrite lookup_empty in H.
Qed.

(** The examples of the specification. *)

Example static_child_example :
  get traversal root_inst "users" 1%nat = (Ok (Some users_inst), 2%nat).
Proof. vm_compute. reflexivity. Qed.

Example dynamic_child_numeric :
  get traversal users_inst "42" 2%nat = (Ok (Some user42_inst), 3%nat).
Proof. vm_compute. reflexivity. Qed.

Example dynamic_child_rejected :
  get traversal users_inst "abc" 2%nat = (Ok None, 2%nat).
Proof. vm_compute. reflexivity. Qed.

Example traverseTo_ancestor :
  traverseTo user42_inst "root" = Ok (Some root_inst) /\
  traverseTo user42_inst "user" = Ok None.
Proof. split; vm_compute; reflexivity. Qed.

Example traverseTo_root_throws :
  traverseTo root_inst "users" = Throw TypeError.
Proof. reflexivity. Qed.

Example getResourcePath_example :
  getResourcePath traversal "user"
    {| ops_name := JStr "edit"; ops_parent := JStr "users";
       ops_method := JStr "GET" |} = Ok (Some edit_handlers) /\
  getResourcePath traversal "user"
    {| ops_name := JUndefined; ops_parent := JStr "users";
       ops_method := JStr "GET" |} = Ok None.
Proof. split; vm_compute; reflexivity. Qed.

(** An exact parent bucket is not left again: POST under [users] finds
    nothing, although POST is registered under "all". *)
Example getResourcePath_stays_in_bucket :
  getResourcePath two_entries "user"
    {| ops_name := JUndefined; ops_parent := JStr "users";
       ops_method := JStr "POST" |} = Ok None /\
  getResourcePath two_entries "user"
    {| ops_name := JUndefined; ops_parent := JStr "root";
       ops_method := JStr "POST" |} = Ok (Some [Fn "update"]).
Proof. split; vm_compute; reflexivity. Qed.

Example registerResourcePath_before_root :
  registerResourcePath registered
    "root" (mkOps JUndefined JUndefined JUndefined) [Fn "h1"]
  = Throw RootNotSet.
Proof. reflexivity. Qed.

Example registerResourcePath_unregistered :
  registerResourcePath traversal "ghost"
    (mkOps JUndefined JUndefined JUndefined) [Fn "h1"]
  = Throw (UnregisteredResource "ghost") /\
  registerResourcePath traversal "user"
    (mkOps JUndefined (JStr "ghost") JUndefined) [Fn "h1"]
  = Throw (UnregisteredResource "ghost").
Proof. split; vm_compute; reflexivity. Qed.

Example registerResourcePath_without_handlers :
  registerResourcePath traversal "user"
    (mkOps JUndefined JUndefined JUndefined) []
  = Throw MissingHandlers.
Proof. vm_compute. reflexivity. Qed.

Example registerResourcePath_not_a_function :
  registerResourcePath traversal "user"
    (mkOps JUndefined JUndefined JUndefined) [Fn "h1"; NotFn (JStr "h2")]
  = Throw InvalidHandlerType.
Proof. vm_compute. reflexivity. Qed.

(** After [clear], registration works again once a root is set. *)
Example registerResourcePath_after_new_root :
  exists t',
    registerResourcePath
      (foldl exec (clear traversal)
         [CRegisterResource "root" root_proto; CSetRootResource "root"])
      "root" (mkOps JUndefined JUndefined (JStr "GET")) [Fn "h1"] = Ok t' /\
    path_entry t' "root" "index" "all" "get" = Some [Fn "h1"].
Proof. eexists. split; vm_compute; reflexivity. Qed.

(** ** Witnesses *)

Lemma buildChain_greedy_witness :
  buildChain traversal (request "/users/42/edit") 0%nat
  = (Ok (user42_inst, edit_request), 3%nat).
Proof.
  apply (buildChain_greedy traversal root_factory
           (request "/users/42/edit") 0%nat 1%nat root_inst).
  { vm_compute. reflexivity. }
  { vm_compute. reflexivity. }
  exists ["users"; "42"], ["edit"], 3%nat. split; [vm_compute; reflexivity|].
  split.
  - apply (walk_cons _ _ _ _ _ users_inst 2%nat); [vm_compute; reflexivity|].
    apply (walk_cons _ _ _ _ _ user42_inst 3%nat); [vm_compute; reflexivity|].
    apply walk_nil.
  - split; [reflexivity|]. split; [vm_compute; reflexivity | reflexivity].
Defined.

Lemma get_constructs_then_inits_witness :
  get traversal root_inst "users" 1%nat = (Ok (Some users_inst), 2%nat).
Proof.
  assert (Hsel : static_child (proto root_inst) "users" = Some "users")
    by (vm_compute; reflexivity).
  assert (Hfac : resources traversal !! "users" = Some users_factory)
    by (vm_compute; reflexivity).
  destruct (get_constructs_then_inits traversal root_inst "users" "users"
              users_factory 1%nat (or_introl Hsel) Hfac) as (_ & _ & Hget).
  exact Hget.
Defined.

Lemma middleware_continuation_chain_witness :
  let c := mkClosure edit_handlers edit_request_attached tt 0 in
  let e := Invoke "h1" edit_request_attached tt K_callback in
  middleware traversal (request "/users/42/edit") tt 0%nat
  = (Ok (edit_request_attached, Some c, e), 3%nat) /\
  run_chain 2 c e
  = [ Invoke "h1" edit_request_attached tt K_callback;
      Invoke "h2" edit_request_attached tt K_callback;
      Invoke "h3" edit_request_attached tt K_next;
      InvokeNext ].
Proof.
  assert (Hbuild :
    buildChain traversal (request "/users/42/edit") 0%nat
    = (Ok (user42_inst, edit_request), 3%nat)) by (vm_compute; reflexivity).
  assert (Hfound :
    getResourcePath traversal (resource user42_inst)
      (leaf_ops edit_request user42_inst) = Ok (Some edit_handlers))
    by (vm_compute; reflexivity).
  destruct (middleware_continuation_chain traversal
              (request "/users/42/edit") tt 0%nat 3%nat user42_inst
              edit_request (Some edit_handlers) Hbuild Hfound)
    as [Hchain _].
  destruct (Hchain "h1" ["h2"; "h3"] eq_refl) as (Hm & Hrun & _).
  split; [exact Hm | exact Hrun].
Defined.

Lemma buildResourceUrl_roundtrip_witness :
  buildChain traversal (request "/users/42") 0%nat
  = (Ok (user42_inst, request "/users/42"), 3%nat) /\
  buildResourceUrl user42_inst JUndefined = "/users/42".
Proof.
  apply (buildResourceUrl_roundtrip traversal root_factory
           (request "/users/42") ["users"; "42"] 0%nat 1%nat 3%nat
           root_inst user42_inst).
  - vm_compute. reflexivity.
  - by apply counting_init_keeps_links.
  - apply traversal_keeps_links.
  - repeat constructor.
  - reflexivity.
  - vm_compute. reflexivity.
  - apply (walk_cons _ _ _ _ _ users_inst 2%nat); [vm_compute; reflexivity|].
    apply (walk_cons _ _ _ _ _ user42_inst 3%nat); [vm_compute; reflexivity|].
    apply walk_nil.
Defined.

(** An id that is neither registered nor a member name. *)
Example initResource_ghost :
  initResource traversal "ghost" (JStr "7") None None 3%nat = (Ok None, 3%nat) /\
  checkResource traversal "ghost" = Throw (UnregisteredResource "ghost") /\
  setRootResource traversal "ghost" = Throw (UnregisteredResource "ghost").
Proof.
  assert (Hid : resources traversal !! "ghost" = None)
    by (vm_compute; reflexivity).
  destruct (initResource_unregistered traversal "ghost" Hid eq_refl)
    as (Hinit & Hcheck & Hroot & _).
  split; [apply Hinit | split; [exact Hcheck | exact Hroot]].
Qed.

(** A segment that names a member of [Object.prototype], under a type that
    declares [children]: the member is taken for the child type id. *)
Example get_inherited_segment :
  get traversal root_inst "constructor" 1%nat
  = (Throw (UnregisteredResource "function Object() { [native code] }"),
     1%nat).
Proof. vm_compute. reflexivity. Qed.

Lemma initResource_inherited_id_witness :
  initResource traversal "constructor" (JStr "7") None None 3%nat
  = (Outside "constructor", 3%nat) /\
  initResource traversal "toString" (JStr "7") None None 3%nat
  = (Throw TypeError, 3%nat) /\
  checkResource traversal "constructor" = Ok tt /\
  setRootResource traversal "constructor" = Outside "constructor".
Proof.
  assert (Hc : resources traversal !! "constructor" = None)
    by (vm_compute; reflexivity).
  assert (Hs : resources traversal !! "toString" = None)
    by (vm_compute; reflexivity).
  destruct (initResource_inherited_id traversal "constructor" Hc eq_refl)
    as (Hinit & Hcheck & Hroot & _).
  destruct (initResource_inherited_id traversal "toString" Hs eq_refl)
    as (Hinit' & _).
  split; [apply Hinit|]. split; [apply Hinit'|].
  split; [exact Hcheck | exact Hroot].
Defined.

Lemma getResourcePath_misses_fallback_witness :
  getResourcePath traversal "user"
    {| ops_name := JStr "edit"; ops_parent := JStr "all";
       ops_method := JStr "CONSTRUCTOR" |} = Outside "constructor" /\
  getResourcePath traversal "user"
    {| ops_name := JStr "edit"; ops_parent := JStr "all";
       ops_method := JUndefined |} = Throw TypeError.
Proof.
  assert (Hb : path_bucket traversal "user" (js_or (JStr "edit") "index")
                 (prop_key (JStr "all")) = Some {["get" := edit_handlers]})
    by (vm_compute; reflexivity).
  destruct (getResourcePath_misses_fallback traversal "user" (JStr "edit")
              (JStr "all") {["get" := edit_handlers]} Hb) as [Hm Hn].
  split.
  - apply (Hm "CONSTRUCTOR"); vm_compute; reflexivity.
  - apply Hn. intros m. discriminate.
Defined.

Lemma registerResourcePath_inherited_target_witness :
  checkResource traversal "constructor" = Ok tt /\
  registerResourcePath traversal "constructor"
    {| ops_name := JUndefined; ops_parent := JUndefined;
       ops_method := JUndefined |} [Fn "h1"]
  = Outside "constructor".
Proof.
  apply (registerResourcePath_inherited_target traversal "constructor"
           {| ops_name := JUndefined; ops_parent := JUndefined;
              ops_method := JUndefined |} [Fn "h1"]).
  - vm_compute. eauto.
  - vm_compute. reflexivity.
  - vm_compute. reflexivity.
  - reflexivity.
  - reflexivity.
  - discriminate.
  - reflexivity.
Defined.

Lemma clear_resets_root_witness :
  registerResourcePath
    (foldl exec (clear traversal)
       [ CRegisterResource "root" root_proto;
         CRegisterResourcePath "root"
           {| ops_name := JUndefined; ops_parent := JUndefined;
              ops_method := JUndefined |} [Fn "h1"] ])
    "root"
    {| ops_name := JUndefined; ops_parent := JUndefined;
       ops_method := JUndefined |} [Fn "h1"]
  = Throw RootNotSet.
Proof.
  destruct (clear_resets_root traversal
              [ CRegisterResource "root" root_proto;
                CRegisterResourcePath "root"
                  {| ops_name := JUndefined; ops_parent := JUndefined;
                     ops_method := JUndefined |} [Fn "h1"] ]
              eq_refl) as (_ & _ & _ & Hreg).
  apply Hreg.
Defined.

(** ** Counterexample *)

(** C2 as stated fails where [children] maps the segment to the empty
    string: the entry is falsy, so [get] passes it over and resolves the
    segment to the dynamic child type instead. *)
Lemma literal_key_resolves_fails :
  ~ @literal_key_resolves nat unit string v8.
Proof.
  intros Hclaim.
  assert (Hlit : literal_child (proto odd_inst) "x" "").
  { exists {["x" := ""]}. split; [reflexivity | vm_compute; reflexivity]. }
  specialize (Hclaim odd_traversal odd_inst "x" "" 0%nat Hlit).
  vm_compute in Hclaim. discriminate Hclaim.
Qed.

(** ** Witnesses of the further properties *)

Lemma register_then_lookup_witness :
  getResourcePath shown "user"
    {| ops_name := JUndefined; ops_parent := JStr "users";
       ops_method := JStr "get" |}
  = Ok (Some [Fn "show"]).
Proof.
  assert (Hreg : registerResourcePath traversal "user" show_ops [Fn "show"]
                 = Ok shown) by (vm_compute; reflexivity).
  apply (register_then_lookup traversal shown "user" show_ops [Fn "show"]
           (JStr "users") "get" Hreg).
  - right. split_and!; vm_compute; reflexivity.
  - left. reflexivity.
Defined.

Lemma registerResourcePath_frame_witness :
  path_entry shown "user" "index" "all" "get" = Some [Fn "show"] /\
  path_entry shown "user" "edit" "all" "get"
  = path_entry traversal "user" "edit" "all" "get" /\
  resources shown = resources traversal /\ root shown = root traversal.
Proof.
  assert (Hreg : registerResourcePath traversal "user" show_ops [Fn "show"]
                 = Ok shown) by (vm_compute; reflexivity).
  destruct (registerResourcePath_frame traversal shown "user" show_ops
              [Fn "show"] Hreg) as (Hentries & Hres & Hroot).
  split; [rewrite Hentries; vm_compute; reflexivity|].
  split; [rewrite Hentries; vm_compute; reflexivity|].
  split; [exact Hres | exact Hroot].
Defined.

Lemma getResourcePath_without_method_witness :
  getResourcePath traversal "user"
    {| ops_name := JStr "edit"; ops_parent := JNull;
       ops_method := JUndefined |} = Throw TypeError /\
  getResourcePath traversal "user"
    {| ops_name := JStr "delete"; ops_parent := JNull;
       ops_method := JUndefined |} = Ok None.
Proof.
  split.
  - rewrite (getResourcePath_without_method traversal "user" (JStr "edit")
               JNull JUndefined); [vm_compute; reflexivity | | done..].
    intros m. discriminate.
  - rewrite (getResourcePath_without_method traversal "user" (JStr "delete")
               JNull JUndefined); [vm_compute; reflexivity | | done..].
    intros m. discriminate.
Defined.

Lemma registration_keeps_paths_consistent_witness :
  paths_consistent traversal /\ well_formed traversal.
Proof.
  apply (registration_keeps_paths_consistent setup).
  vm_compute. reflexivity.
Defined.

Lemma root_is_captured_witness :
  root (foldl exec rooted reregistrations) = Some root_factory.
Proof.
  assert (Hset : setRootResource registered "root" = Ok rooted)
    by (vm_compute; reflexivity).
  destruct (root_is_captured registered rooted "root" reregistrations Hset
              eq_refl)
    as (_ & _ & _ & Hroot).
  rewrite Hroot. vm_compute. reflexivity.
Defined.

Lemma only_clear_unregisters_witness :
  is_Some (resources (foldl exec traversal later_calls) !! "root") /\
  is_Some (path_entry (foldl exec traversal later_calls)
             "user" "edit" "all" "get").
Proof.
  destruct (only_clear_unregisters traversal later_calls eq_refl)
    as [Hres Hentries].
  split.
  - apply Hres. vm_compute. eauto.
  - apply Hentries. vm_compute. eauto.
Defined.

Lemma traverseTo_nearest_ancestor_witness :
  traverseTo user42_inst "root" = Ok (Some root_inst) /\
  traverseTo user42_inst "user" = Ok None.
Proof.
  split.
  - destruct (traverseTo_nearest_ancestor user42_inst users_inst "root"
                eq_refl) as [Hsome _].
    apply Hsome. exists [users_inst], []. split; [reflexivity|].
    split; [reflexivity|]. repeat constructor. discriminate.
  - destruct (traverseTo_nearest_ancestor user42_inst users_inst "user"
                eq_refl) as [_ Hnone].
    apply Hnone. repeat constructor; discriminate.
Defined.

Lemma no_root_no_request_witness :
  buildChain registered (request "/users") 0%nat = (Throw TypeError, 0%nat) /\
  middleware registered (request "/users") tt 0%nat
  = (Throw TypeError, 0%nat) /\
  buildChain (clear registered) (request "/users") 0%nat
  = (Throw TypeError, 0%nat).
Proof.
  apply (no_root_no_request registered (request "/users") tt 0%nat).
  vm_compute. reflexivity.
Defined.

Lemma buildChain_keys_witness :
  (keys_of user42_inst ++ unresolved_subpath edit_request)%list
  = segments (url (request "/users/42/edit")) /\
  buildResourceUrl user42_inst (pathname edit_request) = "/users/42/edit".
Proof.
  apply (buildChain_keys traversal root_factory (request "/users/42/edit")
           edit_request user42_inst 0%nat 3%nat).
  - vm_compute. reflexivity.
  - by apply counting_init_keeps_links.
  - apply traversal_keeps_links.
  - reflexivity.
  - vm_compute. reflexivity.
Defined.

Lemma traverseTo_on_leaf_witness :
  traverseTo root_inst "users" = Throw TypeError <-> keys_of root_inst = [].
Proof.
  apply (traverseTo_on_leaf traversal root_factory (request "/")
           (request "/") root_inst 0%nat 1%nat "users").
  - vm_compute. reflexivity.
  - by apply counting_init_keeps_links.
  - apply traversal_keeps_links.
  - vm_compute. reflexivity.
Defined.


Lemma middleware_adds_no_failure_witness :
  (Some edit_handlers = None /\
   middleware traversal (request "/users/42/edit") tt 0%nat
   = (Ok (attach edit_request user42_inst, None, InvokeNext), 3%nat)) \/
  exists h hs,
    Some edit_handlers = Some (Fn <$> h :: hs) /\
    middleware traversal (request "/users/42/edit") tt 0%nat
    = (Ok (attach edit_request user42_inst,
           Some (mkClosure (Fn <$> h :: hs)
                   (attach edit_request user42_inst) tt 0),
           Invoke h (attach edit_request user42_inst) tt
             (match hs with [] => K_next | _ => K_callback end)), 3%nat).
Proof.
  assert (Hin : stays_inside (@new_Traversal nat unit string) setup = true)
    by (vm_compute; reflexivity).
  destruct (middleware_adds_no_failure setup (request "/users/42/edit") tt
              0%nat Hin) as (_ & _ & Hfound).
  apply Hfound; vm_compute; reflexivity.
Defined.

Lemma inherited_hooks_witness :
  initResource
    (exec (@new_Traversal nat unit string)
       (CRegisterResource "leaf" (mkProto None (JStr "leaf") None None)))
    "leaf" (JStr "7") None None 0%nat
  = (Ok (Some (mkInstance "leaf"
                 (mkClass None (JStr "leaf") default_childValidate)
                 (JStr "7") None None)), 0%nat).
Proof.
  apply (inherited_hooks (@new_Traversal nat unit string)
           (exec new_Traversal
              (CRegisterResource "leaf" (mkProto None (JStr "leaf") None None)))
           "leaf" None (JStr "leaf") (JStr "7") None None 0%nat).
  vm_compute. reflexivity.
Defined.
